(** * Response formatter: a shallow embedding of [src/response_formatter.py]

    The Python module turns the raw answer of a language model into an HTML
    fragment.  Strings are Python [str] values, i.e. sequences of Unicode code
    points; they are modelled as lists of integers.  The regular expressions
    of the module are run by a small backtracking matcher with the greedy,
    leftmost semantics of Python's [re]; exceptions are values of a sum type
    and the [try]/[except] of [format_response] is a combinator on it. *)

From Stdlib Require Import String Ascii DecimalString ZArith QArith Qround Bool Lia List.
Import ListNotations.
Local Open Scope Z_scope.

(** ** Python strings *)

Definition char := Z.
Definition str := list char.

Module Py.

(** Decoding of the UTF-8 bytes of a literal of this file into code points.
    Only used to write string constants. *)
Definition byte (a : ascii) : Z := Z.of_N (N_of_ascii a).

Fixpoint utf8 (s : string) : str :=
  match s with
  | EmptyString => []
  | String a r =>
    let b := byte a in
    if b <? 128 then b :: utf8 r
    else if b <? 224 then
      match r with
      | String a1 r1 => ((b - 192) * 64 + (byte a1 - 128)) :: utf8 r1
      | _ => []
      end
    else if b <? 240 then
      match r with
      | String a1 (String a2 r2) =>
        ((b - 224) * 4096 + (byte a1 - 128) * 64 + (byte a2 - 128)) :: utf8 r2
      | _ => []
      end
    else
      match r with
      | String a1 (String a2 (String a3 r3)) =>
        ((b - 240) * 262144 + (byte a1 - 128) * 4096
         + (byte a2 - 128) * 64 + (byte a3 - 128)) :: utf8 r3
      | _ => []
      end
  end.

(** [str.isspace] on one character, which is also the class [\s] of [re] on
    [str] patterns and the set removed by [str.strip()]. *)
Definition isspace (c : char) : bool :=
  ((9 <=? c) && (c <=? 13)) || ((28 <=? c) && (c <=? 32))
  || (c =? 133) || (c =? 160) || (c =? 5760)
  || ((8192 <=? c) && (c <=? 8202))
  || (c =? 8232) || (c =? 8233) || (c =? 8239) || (c =? 8287) || (c =? 12288).

(** The code points of the digit zero of every decimal-digit script (Unicode
    category Nd, Unicode 14); each is followed by its digits one to nine. *)
Definition decimal_zeros : list Z :=
  [48; 1632; 1776; 1984; 2406; 2534; 2662; 2790; 2918; 3046; 3174; 3302;
   3430; 3558; 3664; 3792; 3872; 4160; 4240; 6112; 6160; 6470; 6608; 6784;
   6800; 6992; 7088; 7232; 7248; 42528; 43216; 43264; 43472; 43504; 43600;
   44016; 65296; 66720; 68912; 69734; 69872; 69942; 70096; 70384; 70736;
   70864; 71248; 71360; 71472; 71904; 72016; 72784; 73040; 73120; 92768;
   92864; 93008; 120782; 120792; 120802; 120812; 120822; 123200; 123632;
   125264; 130032].

(** The value of a decimal digit, [None] for any other character. *)
Fixpoint decimal_in (zeros : list Z) (c : char) : option Z :=
  match zeros with
  | [] => None
  | z :: zs => if (z <=? c) && (c <? z + 10) then Some (c - z)
               else decimal_in zs c
  end.

Definition decimal_value (c : char) : option Z := decimal_in decimal_zeros c.

(** [str.isdecimal] on one character: the class [\d] of [re]. *)
Definition isdecimal (c : char) : bool :=
  match decimal_value c with Some _ => true | None => false end.

(** [str.lower].  The table is exact for every character whose lower-case
    form contains an ASCII character: the letters A-Z, the Kelvin sign and
    the dotted capital I (which becomes two characters).  The other cased
    characters are left as they are; their lower-case forms hold no ASCII
    letter, digit, period, list mark or blank, and [lower_table_adequate]
    shows that the classifier, the only reader of the result, cannot tell
    the difference. *)
Definition lower_char (c : char) : str :=
  if (65 <=? c) && (c <=? 90) then [c + 32]
  else if c =? 304 then [105; 775]
  else if c =? 8490 then [107]
  else [c].

Definition lower (s : str) : str := flat_map lower_char s.

Fixpoint lstrip (s : str) : str :=
  match s with
  | c :: s' => if isspace c then lstrip s' else s
  | [] => []
  end.

Definition rstrip (s : str) : str := rev (lstrip (rev s)).

(** [s.strip()] *)
Definition strip (s : str) : str := rstrip (lstrip s).

(** [s.startswith(p)] *)
Fixpoint startswith (p s : str) : bool :=
  match p, s with
  | [], _ => true
  | a :: p', c :: s' => (a =? c) && startswith p' s'
  | _ :: _, [] => false
  end.

(** [s.endswith(p)] *)
Definition endswith (p s : str) : bool := startswith (rev p) (rev s).

(** [sub in s] *)
Fixpoint contains (sub s : str) : bool :=
  startswith sub s ||
  match s with
  | [] => false
  | _ :: s' => contains sub s'
  end.

(** [s.split(sep)] for a non-empty separator: the pieces between the
    occurrences of [sep], taken from left to right without overlap.  [skip]
    counts the characters of a separator that are still to be passed. *)
Fixpoint split_go (sep : str) (skip : nat) (s : str) : str * list str :=
  match s with
  | [] => ([], [])
  | c :: s' =>
    match skip with
    | S k => split_go sep k s'
    | O =>
      if startswith sep s then
        let (h, t) := split_go sep (List.length sep - 1)%nat s' in ([], h :: t)
      else
        let (h, t) := split_go sep 0 s' in (c :: h, t)
    end
  end.

Definition split (sep s : str) : list str :=
  let (h, t) := split_go sep 0 s in h :: t.

(** [s.replace(old, new)] for a non-empty [old]. *)
Fixpoint replace_go (old new : str) (skip : nat) (s : str) : str :=
  match s with
  | [] => []
  | c :: s' =>
    match skip with
    | S k => replace_go old new k s'
    | O =>
      if startswith old s then new ++ replace_go old new (List.length old - 1)%nat s'
      else c :: replace_go old new 0 s'
    end
  end.

Definition replace (old new s : str) : str := replace_go old new 0 s.

(** [sep.join(parts)] *)
Fixpoint join (sep : str) (parts : list str) : str :=
  match parts with
  | [] => []
  | [p] => p
  | p :: ps => p ++ sep ++ join sep ps
  end.

(** [str(n)] for a natural number, as an f-string prints a loop index. *)
Definition str_of_nat (n : nat) : str :=
  utf8 (NilZero.string_of_uint (Nat.to_uint n)).

(** [any(w in s for w in words)] *)
Definition any_in (words : list str) (s : str) : bool :=
  existsb (fun w => contains w s) words.

End Py.

(** ** Regular expressions

    A pattern of this module is a sequence of items, each a character class
    under a quantifier, possibly anchored at the start of the text by [^].
    [match_here] is the backtracking matcher of [re]: every quantifier is
    greedy and gives characters back one at a time when the rest of the
    pattern fails.  A match is reported as the piece of text consumed by
    each item, so that a group is the concatenation of the pieces of its
    items. *)

Module Re.

Inductive quant := One | Opt | Star | Plus.

Definition item := ((char -> bool) * quant)%type.

Record pattern := Pattern { anchored : bool; items : list item }.

Definition pieces := list str.

(** As many characters of the class as possible, then the continuation [k];
    one character fewer whenever [k] fails. *)
Fixpoint greedy (cls : char -> bool) (k : str -> option (pieces * str))
    (s : str) : option (str * (pieces * str)) :=
  match s with
  | c :: s' =>
    if cls c then
      match greedy cls k s' with
      | Some (w, r) => Some (c :: w, r)
      | None => option_map (pair []) (k s)
      end
    else option_map (pair []) (k s)
  | [] => option_map (pair []) (k s)
  end.

Definition push (w : str) (m : option (pieces * str)) : option (pieces * str) :=
  match m with
  | Some (ws, r) => Some (w :: ws, r)
  | None => None
  end.

Definition push2 (m : option (str * (pieces * str))) : option (pieces * str) :=
  match m with
  | Some (w, (ws, r)) => Some (w :: ws, r)
  | None => None
  end.

(** A match of the items at the very start of [s]: the pieces and the text
    that follows the match. *)
Fixpoint match_here (p : list item) (s : str) : option (pieces * str) :=
  match p with
  | [] => Some ([], s)
  | (cls, q) :: p' =>
    match q with
    | One =>
      match s with
      | c :: s' => if cls c then push [c] (match_here p' s') else None
      | [] => None
      end
    | Opt =>
      match s with
      | c :: s' =>
        if cls c then
          match match_here p' s' with
          | Some (ws, r) => Some ([c] :: ws, r)
          | None => push [] (match_here p' s)
          end
        else push [] (match_here p' s)
      | [] => push [] (match_here p' s)
      end
    | Star => push2 (greedy cls (match_here p') s)
    | Plus =>
      match s with
      | c :: s' =>
        if cls c then
          match greedy cls (match_here p') s' with
          | Some (w, (ws, r)) => Some ((c :: w) :: ws, r)
          | None => None
          end
        else None
      | [] => None
      end
    end
  end.

(** The leftmost match at or after the start of [s]: the text before the
    match, the pieces, and the text after it. *)
Fixpoint search_items (p : list item) (s : str) : option (str * pieces * str) :=
  match match_here p s with
  | Some (ws, r) => Some ([], ws, r)
  | None =>
    match s with
    | [] => None
    | c :: s' =>
      match search_items p s' with
      | Some (pre, ws, r) => Some (c :: pre, ws, r)
      | None => None
      end
    end
  end.

(** [re.search(p, s)] *)
Definition search (p : pattern) (s : str) : option (str * pieces * str) :=
  if anchored p then
    match match_here (items p) s with
    | Some (ws, r) => Some ([], ws, r)
    | None => None
    end
  else search_items (items p) s.

(** [bool(re.search(p, s))] *)
Definition found (p : pattern) (s : str) : bool :=
  match search p s with Some _ => true | None => false end.

(** The successive matches of [re.findall] and [re.sub], for items that
    never match the empty text: after a match the scan resumes right behind
    it, [skip] being the number of matched characters still to be passed. *)
Fixpoint findall_go (p : list item) (skip : nat) (s : str) : list pieces :=
  match s with
  | [] => []
  | _ :: s' =>
    match skip with
    | S k => findall_go p k s'
    | O =>
      match match_here p s with
      | Some (ws, _) => ws :: findall_go p (List.length (concat ws) - 1) s'
      | None => findall_go p 0 s'
      end
    end
  end.

(** [re.findall(p, s)] for an unanchored pattern, every match given by its
    pieces. *)
Definition findall (p : pattern) (s : str) : list pieces :=
  findall_go (items p) 0 s.

Fixpoint sub_go (p : list item) (repl : str) (skip : nat) (s : str) : str :=
  match s with
  | [] => []
  | c :: s' =>
    match skip with
    | S k => sub_go p repl k s'
    | O =>
      match match_here p s with
      | Some (ws, _) => repl ++ sub_go p repl (List.length (concat ws) - 1) s'
      | None => c :: sub_go p repl 0 s'
      end
    end
  end.

(** [re.sub(p, repl, s)]; an anchored pattern can only match at the start. *)
Definition sub (p : pattern) (repl s : str) : str :=
  if anchored p then
    match match_here (items p) s with
    | Some (_, r) => repl ++ r
    | None => s
    end
  else sub_go (items p) repl 0 s.

(** Character classes. *)
Definition lit (a : char) : char -> bool := fun c => c =? a.
Definition digit : char -> bool := Py.isdecimal.               (* \d *)
Definition space : char -> bool := Py.isspace.                 (* \s *)
Definition bullet_mark : char -> bool :=                       (* [-•*] *)
  fun c => (c =? 45) || (c =? 8226) || (c =? 42).
Definition not_dot_nl : char -> bool :=                        (* [^.\n] *)
  fun c => negb ((c =? 46) || (c =? 10)).
Definition currency : char -> bool :=                          (* [₹$] *)
  fun c => (c =? 8377) || (c =? 36).
Definition digit_comma : char -> bool :=                       (* [\d,] *)
  fun c => Py.isdecimal c || (c =? 44).

End Re.

(** ** Exceptions *)

Inductive exn := OverflowError | ValueError | MemoryError.

Inductive result (A : Type) : Type :=
| Ok (a : A)
| Raise (e : exn).
Arguments Ok {A} a.
Arguments Raise {A} e.

Definition bind {A B : Type} (r : result A) (k : A -> result B) : result B :=
  match r with
  | Ok a => k a
  | Raise e => Raise e
  end.

Notation "x <- r ;; k" := (bind r (fun x => k))
  (at level 61, r at next level, right associativity).

(** [try: body  except Exception as e: handler(e)] *)
Definition try_except {A : Type} (body : result A) (handler : exn -> result A)
    : result A :=
  match body with
  | Ok a => Ok a
  | Raise e => handler e
  end.

(** ** Floating point

    The only floats of the module are the values of [float(rating)] for a
    rating token, which are never negative and never NaN.  A finite one is
    kept exactly, as [m * 2^e]; [float] rounds the decimal number to the
    nearest binary64 value, ties to even, and gives infinity from
    [2^1024 - 2^970] on. *)

Module Float.

Inductive t := Finite (m e : Z) | Inf.

(** [n / d] rounded to the nearest integer, ties to even. *)
Definition round_half_even (n d : Z) : Z :=
  let q := n / d in
  let r := n mod d in
  if (d <? 2 * r) || ((2 * r =? d) && Z.odd q) then q + 1 else q.

(** The integer [E] with [2^E <= n/d < 2^(E+1)], for positive [n] and [d]. *)
Definition exponent (n d : Z) : Z :=
  let t := Z.log2 n - Z.log2 d in
  if (if 0 <=? t then d * 2 ^ t <=? n else d <=? n * 2 ^ (- t))
  then t else t - 1.

(** The binary64 value nearest to [n / d], for [0 <= n] and [0 < d]:
    53 significant bits, exponent of the last bit at least [-1074]. *)
Definition of_ratio (n d : Z) : t :=
  if n <=? 0 then Finite 0 0
  else
    let e := Z.max (exponent n d - 52) (-1074) in
    let m := if 0 <=? e then round_half_even n (d * 2 ^ e)
             else round_half_even (n * 2 ^ (- e)) d in
    if (0 <=? e) && (2 ^ 1024 <=? m * 2 ^ e) then Inf else Finite m e.

(** The longest prefix of decimal digits, as digit values, and the rest. *)
Fixpoint span_digits (s : str) : list Z * str :=
  match s with
  | c :: s' =>
    match Py.decimal_value c with
    | Some v => let (ds, r) := span_digits s' in (v :: ds, r)
    | None => ([], s)
    end
  | [] => ([], [])
  end.

Definition number_of_digits (ds : list Z) : Z :=
  fold_left (fun acc v => 10 * acc + v) ds 0.

(** [float(s)] for an unsigned decimal numeral without exponent, the syntax
    [digits], [digits.], [digits.digits] and [.digits], in the digits of any
    script.  This covers every text that the rating pattern captures, the
    only texts that the module gives to [float].  The signs, exponents,
    underscores, surrounding blanks and the words [inf] and [nan] that
    [float] also reads are not modelled: every other text is a [ValueError]
    here, and nothing is stated of the rendering of a record with such a
    rating. *)
Definition of_str (s : str) : result t :=
  let (ip, r) := span_digits s in
  match r with
  | [] =>
    match ip with
    | [] => Raise ValueError
    | _ => Ok (of_ratio (number_of_digits ip) 1)
    end
  | c :: fr =>
    if c =? 46 then
      let (fp, r') := span_digits fr in
      match r', ip ++ fp with
      | [], _ :: _ =>
        Ok (of_ratio (number_of_digits (ip ++ fp)) (10 ^ Z.of_nat (length fp)))
      | _, _ => Raise ValueError
      end
    else Raise ValueError
  end.

(** [int(x)]: the integer part; infinity has none. *)
Definition to_int (x : t) : result Z :=
  match x with
  | Finite m e => Ok (if 0 <=? e then m * 2 ^ e else m / 2 ^ (- e))
  | Inf => Raise OverflowError
  end.

(** [x % 1 >= 0.5].  The remainder of a finite value is exact; that of
    infinity is NaN, which compares false. *)
Definition mod1_ge_half (x : t) : bool :=
  match x with
  | Finite m e =>
    if 0 <=? e then false else 2 ^ (- e) <=? 2 * (m mod 2 ^ (- e))
  | Inf => false
  end.

End Float.

(** ** The formatter *)

(** String constants.  [u] reads a literal; [tpl] reads a piece of an HTML
    template in which [~] stands for the double quote; [line n t] is a line
    break, [n] blanks of indentation and the template text [t], as in the
    triple-quoted templates of the source. *)
Definition u : string -> str := Py.utf8.

Definition tpl (t : string) : str :=
  map (fun c => if c =? 126 then 34 else c) (Py.utf8 t).

Definition line (n : nat) (t : string) : str :=
  10 :: repeat 32 n ++ tpl t.

(** The line break. *)
Definition nl : str := [10].

(** The truth value of a string: whether it is non-empty. *)
Definition nonempty (s : str) : bool :=
  match s with [] => false | _ :: _ => true end.

(** The patterns of the module. *)
Definition re_spaces : Re.pattern :=                (* \s+ *)
  Re.Pattern false [(Re.space, Re.Plus)].
Definition re_numbered : Re.pattern :=              (* \d+\. *)
  Re.Pattern false [(Re.digit, Re.Plus); (Re.lit 46, Re.One)].
Definition re_bullet : Re.pattern :=                (* [-•*]\s *)
  Re.Pattern false [(Re.bullet_mark, Re.One); (Re.space, Re.One)].
Definition re_item : Re.pattern :=                  (* (\d+)\.\s*([^.\n]+) *)
  Re.Pattern false [(Re.digit, Re.Plus); (Re.lit 46, Re.One);
                    (Re.space, Re.Star); (Re.not_dot_nl, Re.Plus)].
Definition re_price : Re.pattern :=                 (* [₹$]\s*[\d,]+ *)
  Re.Pattern false [(Re.currency, Re.One); (Re.space, Re.Star);
                    (Re.digit_comma, Re.Plus)].
Definition re_rating : Re.pattern :=                (* group 1: \d+\.?\d*  then: /5 *)
  Re.Pattern false [(Re.digit, Re.Plus); (Re.lit 46, Re.Opt);
                    (Re.digit, Re.Star); (Re.lit 47, Re.One);
                    (Re.lit 53, Re.One)].
Definition re_bullet_start : Re.pattern :=          (* ^[-•*]\s *)
  Re.Pattern true [(Re.bullet_mark, Re.One); (Re.space, Re.One)].
Definition re_numbered_start : Re.pattern :=        (* ^\d+\.\s *)
  Re.Pattern true [(Re.digit, Re.Plus); (Re.lit 46, Re.One);
                   (Re.space, Re.One)].
Definition re_bullet_marker : Re.pattern :=         (* ^[-•*]\s* *)
  Re.Pattern true [(Re.bullet_mark, Re.One); (Re.space, Re.Star)].
Definition re_numbered_marker : Re.pattern :=       (* ^\d+\.\s* *)
  Re.Pattern true [(Re.digit, Re.Plus); (Re.lit 46, Re.One);
                   (Re.space, Re.Star)].

(** The fields set by [__init__] and the word list of the classifier. *)
Definition product_keywords : list str :=
  [u "smartphone"; u "laptop"; u "headphone"; u "phone"; u "computer";
   u "tablet"; u "earphone"; u "speaker"; u "camera"; u "watch"].

Definition brand_keywords : list str :=
  [u "samsung"; u "apple"; u "xiaomi"; u "realme"; u "oneplus"; u "google";
   u "sony"; u "lg"; u "huawei"; u "oppo"; u "vivo"; u "motorola"].

Definition recommendation_words : list str :=
  [u "recommend"; u "suggest"; u "best"; u "top"; u "good"; u "excellent";
   u "great"].

(** The dictionary appended by [_extract_products]. *)
Record product := Product {
  name : str;
  price : str;
  rating : str;
  description : str
}.

Definition _clean_response (response : str) : str :=
  let response := Re.sub re_spaces (u " ") (Py.strip response) in
  let response := Py.replace (u "**") [] response in
  let response := Py.replace (u "*") [] response in
  response.

Definition has_bullet_points (response : str) : bool :=
  Re.found re_bullet response.

Definition has_numbered_list (response : str) : bool :=
  Re.found re_numbered response.

Definition _is_product_recommendation (response : str) : bool :=
  let response_lower := Py.lower response in
  let has_product_keywords := Py.any_in product_keywords response_lower in
  let has_brand_keywords := Py.any_in brand_keywords response_lower in
  let has_recommendation_words :=
    Py.any_in recommendation_words response_lower in
  (has_product_keywords || has_brand_keywords)
  && (has_recommendation_words || has_numbered_list response
      || has_bullet_points response).

(** [m.group(0)] of an optional match, the empty string without a match. *)
Definition group0 (m : option (str * Re.pieces * str)) : str :=
  match m with
  | Some (_, ws, _) => concat ws
  | None => []
  end.

(** The group made of the first [n] items of the pattern. *)
Definition group_first (n : nat) (m : option (str * Re.pieces * str)) : str :=
  match m with
  | Some (_, ws, _) => concat (firstn n ws)
  | None => []
  end.

(** The body of the loop of [_extract_products] for the text [content] of
    the second group of a match: the record to append, if any. *)
Definition extract_item (content : str) : option product :=
  let product_name := Py.strip (hd [] (Py.split (u " - ") content)) in
  if nonempty product_name then
    let price := group0 (Re.search re_price content) in
    let rating := group_first 3 (Re.search re_rating content) in
    Some (Product product_name price rating (Py.strip content))
  else None.

Fixpoint extract_loop (numbered_items : list Re.pieces) : list product :=
  match numbered_items with
  | [] => []
  | ws :: rest =>
    match extract_item (nth 3 ws []) with
    | Some p => p :: extract_loop rest
    | None => extract_loop rest
    end
  end.

Definition _extract_products (response : str) : list product :=
  extract_loop (Re.findall re_item response).

Fixpoint intro_loop (sentences : list str) : list str :=
  match sentences with
  | [] => []
  | sentence :: rest =>
    if Re.found re_numbered sentence then []
    else Py.strip sentence :: intro_loop rest
  end.

Definition default_intro : str :=
  u "Here are some product recommendations based on your query:".

Definition _get_recommendation_intro (response : str) : str :=
  let sentences := Py.split (u ".") response in
  let intro_parts := intro_loop sentences in
  let intro := Py.strip (Py.join (u ". ") intro_parts) in
  let intro :=
    if nonempty intro && negb (Py.endswith (u ".") intro)
    then intro ++ u "." else intro in
  if nonempty intro then intro else default_intro.

Definition full_star : str := u "<i class='fas fa-star stars'></i>".
Definition half_star : str := u "<i class='fas fa-star-half-alt stars'></i>".

(** The list of [n] full-star glyphs and its concatenation.  This is the
    one value of the module that a short text can make astronomic: a rating
    of fourteen digits asks for a list of that many entries, which no
    machine holds.  [capacity] is the largest number of glyphs for which the
    machine at hand builds the list and joins it; beyond it the list
    comprehension raises [MemoryError].  It is taken to be the same at
    every turn of the loop, and the memory that the other values of the
    module take, which grows with the text alone, is supposed to be
    there. *)
Definition full_stars (capacity : N) (n : Z) : result str :=
  if n <=? Z.of_N capacity
  then Ok (concat (repeat full_star (Z.to_nat n)))
  else Raise MemoryError.

(** The star markup computed at the head of the loop of
    [_create_product_cards] for one rating. *)
Definition stars_html (capacity : N) (rating : str) : result str :=
  if nonempty rating then
    rating_num <- Float.of_str rating ;;
    n <- Float.to_int rating_num ;;
    stars <- full_stars capacity n ;;
    Ok (if Float.mod1_ge_half rating_num then stars ++ half_star else stars)
  else Ok [].

Definition cards_head (intro : str) : str :=
  line 8 "<div class=~product-recommendation~>"
  ++ line 12 "<h4><i class=~fas fa-star~></i>Product Recommendations</h4>"
  ++ line 12 "<p class=~recommendation-intro~>" ++ intro ++ tpl "</p>"
  ++ line 12 "<div class=~product-list~>"
  ++ line 8 "".

Definition card (i : nat) (p : product) (stars : str) : str :=
  line 16 "<div class=~product-item~>"
  ++ line 20 "<div class=~product-name~>"
  ++ line 24 "<i class=~fas fa-mobile-alt~></i>"
  ++ line 24 "<strong>" ++ Py.str_of_nat i ++ u ". " ++ name p
  ++ tpl "</strong>"
  ++ line 20 "</div>"
  ++ line 20 "<div class=~product-description~>"
  ++ line 24 "" ++ description p
  ++ line 20 "</div>"
  ++ line 20 ""
  ++ (if nonempty (price p)
      then tpl "<div class=~product-price~>" ++ price p ++ tpl "</div>"
      else [])
  ++ line 20 ""
  ++ (if nonempty (rating p)
      then tpl "<div class=~product-rating~><span class=~stars~>" ++ stars
           ++ tpl "</span> <span>" ++ rating p ++ tpl "/5</span></div>"
      else [])
  ++ line 16 "</div>"
  ++ line 12 "".

Definition cards_foot : str :=
  line 12 "</div>"
  ++ line 12 "<div class=~disclaimer~>"
  ++ line 16 "<i class=~fas fa-info-circle~></i>"
  ++ line 16 "Recommendations are based on available product data and reviews."
  ++ line 12 "</div>"
  ++ line 8 "</div>"
  ++ line 8 "".

(** The loop over [enumerate(products, 1)], [i] being the current index. *)
Fixpoint cards_loop (capacity : N) (i : nat) (products : list product)
    (html : str) : result str :=
  match products with
  | [] => Ok html
  | p :: rest =>
    stars <- stars_html capacity (rating p) ;;
    cards_loop capacity (S i) rest (html ++ card i p stars)
  end.

Definition _create_product_cards (capacity : N) (products : list product)
    (original_response : str) : result str :=
  let html := cards_head (_get_recommendation_intro original_response) in
  html <- cards_loop capacity 1 products html ;;
  Ok (html ++ cards_foot).

Definition list_item (text : str) : str :=
  tpl "<li class=~response-list-item~>" ++ text ++ tpl "</li>".

Fixpoint list_loop (lines : list str) (html : str) : str :=
  match lines with
  | [] => html
  | l :: rest =>
    let l := Py.strip l in
    if nonempty l then
      let l := Re.sub re_bullet_marker [] l in
      let l := Re.sub re_numbered_marker [] l in
      if nonempty l then list_loop rest (html ++ list_item l)
      else list_loop rest html
    else list_loop rest html
  end.

Definition _format_list (text : str) : str :=
  let lines := Py.split nl text in
  let html := tpl "<ul class=~response-list~>" in
  let html := list_loop lines html in
  html ++ tpl "</ul>".

Definition is_list_paragraph (paragraph : str) : bool :=
  Re.found re_bullet_start paragraph || Re.found re_numbered_start paragraph.

Definition paragraph_html (paragraph : str) : str :=
  tpl "<p class=~response-paragraph~>" ++ paragraph ++ tpl "</p>".

Fixpoint general_loop (paragraphs : list str) (html : str) : str :=
  match paragraphs with
  | [] => html
  | paragraph :: rest =>
    let paragraph := Py.strip paragraph in
    if nonempty paragraph then
      if is_list_paragraph paragraph
      then general_loop rest (html ++ _format_list paragraph)
      else general_loop rest (html ++ paragraph_html paragraph)
    else general_loop rest html
  end.

Definition _format_general_response (response : str) : str :=
  let paragraphs := Py.split (nl ++ nl) response in
  let html := tpl "<div class=~general-response~>" in
  let html := general_loop paragraphs html in
  html ++ tpl "</div>".

Definition _format_product_recommendation (capacity : N) (response : str)
    : result str :=
  let products := _extract_products response in
  match products with
  | _ :: _ => _create_product_cards capacity products response
  | [] => Ok (_format_general_response response)
  end.

Definition _format_fallback_response (response : str) : str :=
  line 8 "<div class=~general-response~>"
  ++ line 12 "<p class=~response-paragraph~>" ++ response ++ tpl "</p>"
  ++ line 8 "</div>"
  ++ line 8 "".

(** The body of the [try] of [format_response]. *)
Definition format_response_body (capacity : N) (response : str)
    : result str :=
  let cleaned_response := _clean_response response in
  if _is_product_recommendation cleaned_response
  then _format_product_recommendation capacity cleaned_response
  else Ok (_format_general_response cleaned_response).

(** [format_response]: the handler logs the error, which returns nothing
    and is not modelled, and returns the fallback markup of the argument as
    it was received. *)
Definition format_response (capacity : N) (response : str) : result str :=
  try_except (format_response_body capacity response)
    (fun _ => Ok (_format_fallback_response response)).

(** The module-level function, which calls the shared formatter. *)
Definition format_llm_response (capacity : N) (response : str)
    : result str :=
  format_response capacity response.

(** ** A view of the generic renderer as a sequence of blocks

    [_format_general_response] appends one element to its markup for each
    paragraph it keeps.  The functions below compute the same elements as
    data, so that they can be counted; [general_response_blocks] shows that
    the markup is their concatenation. *)

Inductive block :=
| Paragraph (text : str)
| ListBlock (entries : list str).

Definition render_block (b : block) : str :=
  match b with
  | Paragraph text => paragraph_html text
  | ListBlock entries =>
    tpl "<ul class=~response-list~>" ++ concat (map list_item entries)
    ++ tpl "</ul>"
  end.

Fixpoint list_entries (lines : list str) : list str :=
  match lines with
  | [] => []
  | l :: rest =>
    let l := Py.strip l in
    if nonempty l then
      let l := Re.sub re_bullet_marker [] l in
      let l := Re.sub re_numbered_marker [] l in
      if nonempty l then l :: list_entries rest else list_entries rest
    else list_entries rest
  end.

Definition block_of (paragraph : str) : block :=
  if is_list_paragraph paragraph
  then ListBlock (list_entries (Py.split nl paragraph))
  else Paragraph paragraph.

Fixpoint blocks_of (paragraphs : list str) : list block :=
  match paragraphs with
  | [] => []
  | paragraph :: rest =>
    let paragraph := Py.strip paragraph in
    if nonempty paragraph then block_of paragraph :: blocks_of rest
    else blocks_of rest
  end.

Definition general_blocks (response : str) : list block :=
  blocks_of (Py.split (nl ++ nl) response).

(** ** The words of the specification *)

(** [w] occurs in [s]. *)
Definition occurs (w s : str) : Prop := exists pre suf, s = pre ++ w ++ suf.

(** One of [words] occurs in [s], letter case apart. *)
Definition keyword_present (words : list str) (s : str) : Prop :=
  exists w, In w words /\ occurs w (Py.lower s).

(** A character of the class [P] immediately followed by one of [Q]. *)
Definition adjacent (P Q : char -> bool) (s : str) : Prop :=
  exists pre a b suf, s = pre ++ a :: b :: suf /\ P a = true /\ Q b = true.

(** An integer immediately followed by a period. *)
Definition numbered_list_pattern (s : str) : Prop :=
  exists pre ds suf,
    s = pre ++ ds ++ 46 :: suf /\ ds <> [] /\ Forall (fun c => Py.isdecimal c = true) ds.

(** A dash, bullet glyph or asterisk followed by white space, anywhere. *)
Definition bullet_mark_anywhere (s : str) : Prop :=
  exists pre b w suf,
    s = pre ++ b :: w :: suf /\ (b = 45 \/ b = 8226 \/ b = 42)
    /\ Py.isspace w = true.

(** A line of [s] begins with a dash, bullet glyph or asterisk followed by
    white space. *)
Definition bullet_line (s : str) : Prop :=
  exists l b w rest,
    In l (Py.split nl s) /\ l = b :: w :: rest
    /\ (b = 45 \/ b = 8226 \/ b = 42) /\ Py.isspace w = true.

(** A text of the shape that the rating pattern captures: a run of decimal
    digits, alone or followed by a period and a run of decimal digits, which
    may be empty. *)
Definition rating_token (r : str) : Prop :=
  exists ip fp,
    ip <> []
    /\ Forall (fun c => Py.isdecimal c = true) ip
    /\ Forall (fun c => Py.isdecimal c = true) fp
    /\ (r = ip \/ r = ip ++ 46 :: fp).


(** [n] full-star glyphs, and a half-star glyph when [half] holds. *)
Definition star_glyphs (n : Z) (half : bool) : str :=
  concat (repeat full_star (Z.to_nat n)) ++ (if half then half_star else []).


(** Boolean form of [adjacent]. *)
Fixpoint has_pair (P Q : char -> bool) (s : str) : bool :=
  match s with
  | a :: s' =>
    match s' with
    | b :: _ => (P a && Q b) || has_pair P Q s'
    | [] => false
    end
  | [] => false
  end.

(** ** Notions used in the statements and proofs *)

(** What a piece owes to its item: characters of the class, in the number
    the quantifier allows. *)
Definition piece_ok (it : Re.item) (w : str) : Prop :=
  Forall (fun c => fst it c = true) w /\
  match snd it with
  | Re.One => exists c, w = [c]
  | Re.Opt => (length w <= 1)%nat
  | Re.Star => True
  | Re.Plus => w <> []
  end.

(** A character class that no cased character and no character of a
    lower-case form belongs to. *)
Definition case_blind (P : char -> bool) : Prop :=
  forall c, Py.lower_char c = [c] \/
    (P c = false /\ exists x l, Py.lower_char c = x :: l
                               /\ Forall (fun y => P y = false) (x :: l)).

(** Whether the first character of [s] is in the class [Q]. *)
Definition head_in (Q : char -> bool) (s : str) : bool :=
  match s with b :: _ => Q b | [] => false end.

(** The characters that a test of the classifier can tell from others: the
    letters of its keywords, digits, the period, list marks and blanks. *)
Definition relevant (c : char) : bool :=
  ((97 <=? c) && (c <=? 122)) || Re.digit c || Re.lit 46 c
  || Re.bullet_mark c || Re.space c.

(** Any lower-case form that [str.lower] may give to a text, whatever it
    does to the cased characters outside the table of [Py.lower_char]: a
    character has the form the table says or, when the table leaves it
    alone and it is not relevant, any non-empty form free of relevant
    characters, which may depend on its neighbours. *)
Inductive lower_form : str -> str -> Prop :=
| lower_form_nil : lower_form [] []
| lower_form_table c s out :
    lower_form s out -> lower_form (c :: s) (Py.lower_char c ++ out)
| lower_form_other c seg s out :
    Py.lower_char c = [c] -> relevant c = false ->
    seg <> [] -> Forall (fun x => relevant x = false) seg ->
    lower_form s out -> lower_form (c :: s) (seg ++ out).

(** The classifier, given the lower-case form of the text. *)
Definition classify_with (response_lower response : str) : bool :=
  (Py.any_in product_keywords response_lower
   || Py.any_in brand_keywords response_lower)
  && (Py.any_in recommendation_words response_lower
      || has_numbered_list response || has_bullet_points response).

(** A non-empty word of relevant characters. *)
Definition word (w : str) : Prop :=
  w <> [] /\ Forall (fun a => relevant a = true) w.

(** Two texts in which the same words occur, at the start and anywhere. *)
Definition same_words (r1 r2 : str) : Prop :=
  forall w, word w ->
    Py.startswith w r1 = Py.startswith w r2
    /\ Py.contains w r1 = Py.contains w r2.

(** [d * 2^E <= n], also for a negative [E]. *)
Definition below (d E n : Z) : Prop :=
  if 0 <=? E then d * 2 ^ E <= n else d <= n * 2 ^ (- E).

(** [n < d * 2^E], also for a negative [E]. *)
Definition above (d E n : Z) : Prop :=
  if 0 <=? E then n < d * 2 ^ E else n * 2 ^ (- E) < d.

(** A paragraph, or a list of at most one entry. *)
Definition small_block (b : block) : Prop :=
  match b with
  | Paragraph _ => True
  | ListBlock entries => (length entries <= 1)%nat
  end.

(** The two numbered items of the extraction example, one per line. *)
Definition two_items : str :=
  u "1. Phone A - ₹20,000 4.5/5" ++ nl ++ u "2. Phone B - $300".

(** A sentence of introduction followed by a numbered item. *)
Definition one_sentence_then_list : str :=
  u "Here are phones. 1. Phone A - $300".

(** A text whose only item has a rating of four hundred digits: the float
    of that rating is infinite and has no integer part. *)
Definition huge_rating_text : str :=
  u "phone" ++ nl ++ u "1. X " ++ repeat 57 400 ++ u "/5".

(** A text whose only item has a rating of fourteen digits: its float is
    finite, but no machine holds that many glyphs. *)
Definition long_rating_text : str :=
  u "phone 1. X 99999999999999/5".

(** A machine that can build a million star glyphs, for the examples. *)
Definition million : N := 1000000.

(** ** Notions used in the further properties *)

(** A character that normalization keeps: neither white space nor an
    asterisk. *)
Definition visible (c : char) : bool :=
  negb (Py.isspace c) && negb (c =? 42).

(** A text that neither begins nor ends with a white-space character. *)
Definition no_outer_space (x : str) : Prop :=
  head_in Py.isspace x = false /\ head_in Py.isspace (rev x) = false.


(** The number that a run of decimal digits denotes. *)
Definition digits_value (r : str) : Z :=
  Float.number_of_digits (fst (Float.span_digits r)).

(** * Properties *)

(** Closed goals are settled by evaluation. *)
Ltac by_evaluation := vm_compute; reflexivity.

(** ** The matcher *)

Lemma greedy_inv cls k s w res :
  Re.greedy cls k s = Some (w, res) ->
  Forall (fun c => cls c = true) w /\
  exists s', s = w ++ s' /\ k s' = Some res.
Proof.
  revert w res. induction s as [|c s IH]; intros w res; simpl.
  - destruct (k []) eqn:K; simpl; intros [= <- <-].
    split; [constructor|]. exists []. auto.
  - destruct (cls c) eqn:C.
    + destruct (Re.greedy cls k s) as [[w' r']|] eqn:G.
      * intros [= <- <-]. destruct (IH _ _ eq_refl) as [F [s' [-> K]]].
        split; [constructor; auto|]. exists s'. auto.
      * destruct (k (c :: s)) eqn:K; simpl; intros [= <- <-].
        split; [constructor|]. exists (c :: s). auto.
    + destruct (k (c :: s)) eqn:K; simpl; intros [= <- <-].
      split; [constructor|]. exists (c :: s). auto.
Qed.

(** A match consumes a prefix of the text, and every piece fits its item. *)
Lemma match_here_inv p : forall s ws r,
  Re.match_here p s = Some (ws, r) ->
  s = concat ws ++ r /\ Forall2 piece_ok p ws.
Proof.
  induction p as [|[cls q] p IH]; intros s ws r; simpl.
  - intros [= <- <-]. split; [reflexivity | constructor].
  - destruct q.
    + destruct s as [|c s]; [discriminate|].
      destruct (cls c) eqn:C; [|discriminate].
      destruct (Re.match_here p s) as [[ws' r']|] eqn:M; simpl; [|discriminate].
      intros [= <- <-]. destruct (IH _ _ _ M) as [-> F].
      split; [reflexivity|]. constructor; [|exact F].
      split; simpl; [repeat constructor; exact C | eauto].
    + assert (Skip : forall s, Re.push [] (Re.match_here p s) = Some (ws, r) ->
                s = concat ws ++ r /\ Forall2 piece_ok ((cls, Re.Opt) :: p) ws).
      { intros s0. destruct (Re.match_here p s0) as [[ws' r']|] eqn:M; simpl;
          [|discriminate].
        intros [= <- <-]. destruct (IH _ _ _ M) as [-> F].
        split; [reflexivity|]. constructor; [|exact F].
        split; simpl; [constructor | lia]. }
      destruct s as [|c s]; [apply Skip|].
      destruct (cls c) eqn:C; [|apply Skip].
      destruct (Re.match_here p s) as [[ws' r']|] eqn:M; [|apply Skip].
      intros [= <- <-]. destruct (IH _ _ _ M) as [-> F].
      split; [reflexivity|]. constructor; [|exact F].
      split; simpl; [repeat constructor; exact C | lia].
    + destruct (Re.greedy cls (Re.match_here p) s) as [[w [ws' r']]|] eqn:G;
        simpl; [|discriminate].
      intros [= <- <-]. destruct (greedy_inv _ _ _ _ _ G) as [F [s' [-> M]]].
      destruct (IH _ _ _ M) as [-> F'].
      split; [simpl; now rewrite app_assoc|]. constructor; [|exact F'].
      split; simpl; auto.
    + destruct s as [|c s]; [discriminate|].
      destruct (cls c) eqn:C; [|discriminate].
      destruct (Re.greedy cls (Re.match_here p) s) as [[w [ws' r']]|] eqn:G;
        [|discriminate].
      intros [= <- <-]. destruct (greedy_inv _ _ _ _ _ G) as [F [s' [-> M]]].
      destruct (IH _ _ _ M) as [-> F'].
      split; [simpl; now rewrite app_assoc|]. constructor; [|exact F'].
      split; simpl; [constructor; auto | discriminate].
Qed.

Section Scan.

Variable p : list Re.item.

(** A successful search splits the text around a match. *)
Lemma search_items_inv : forall s pre ws r,
  Re.search_items p s = Some (pre, ws, r) ->
  s = pre ++ concat ws ++ r /\ Forall2 piece_ok p ws.
Proof.
  induction s as [|c s IH]; intros pre ws r; simpl.
  - destruct (Re.match_here p []) as [[ws' r']|] eqn:M; [|discriminate].
    intros [= <- <- <-]. apply (match_here_inv _ _ _ _ M).
  - destruct (Re.match_here p (c :: s)) as [[ws' r']|] eqn:M.
    + intros [= <- <- <-]. apply (match_here_inv _ _ _ _ M).
    + destruct (Re.search_items p s) as [[[pre' ws'] r']|] eqn:S; [|discriminate].
      intros [= <- <- <-]. destruct (IH _ _ _ eq_refl) as [-> F].
      split; [reflexivity | exact F].
Qed.

(** A search fails only if the items match at no position. *)
Lemma search_items_none : forall s1 s2,
  Re.search_items p (s1 ++ s2) = None -> Re.match_here p s2 = None.
Proof.
  induction s1 as [|c s1 IH]; intros s2; simpl.
  - destruct s2 as [|c s2]; simpl;
      destruct (Re.match_here p _) as [[ws r]|]; try discriminate; auto.
  - destruct (Re.match_here p (c :: s1 ++ s2)) as [[ws r]|]; [discriminate|].
    destruct (Re.search_items p (s1 ++ s2)) as [[[pre ws] r]|] eqn:S;
      [discriminate|].
    intros _. now apply IH.
Qed.

(** Every match reported by [findall] is a match of the items somewhere. *)
Lemma findall_go_inv : forall s skip ws,
  In ws (Re.findall_go p skip s) -> Forall2 piece_ok p ws.
Proof.
  induction s as [|c s IH]; intros skip ws; simpl; [tauto|].
  destruct skip as [|k]; [|apply IH].
  destruct (Re.match_here p (c :: s)) as [[ws' r]|] eqn:M; [|apply IH].
  intros [<-|H]; [|eapply IH; eauto].
  apply (match_here_inv _ _ _ _ M).
Qed.

End Scan.

Lemma pieces_cons it p ws :
  Forall2 piece_ok (it :: p) ws ->
  exists w ws', ws = w :: ws' /\ Forall (fun c => fst it c = true) w /\
    match snd it with
    | Re.One => exists c, w = [c]
    | Re.Opt => (length w <= 1)%nat
    | Re.Star => True
    | Re.Plus => w <> []
    end /\ Forall2 piece_ok p ws'.
Proof.
  intros F. inversion F as [|? w ? ws' H F']; subst.
  destruct H as [H1 H2]. exists w, ws'. auto.
Qed.

Lemma pieces_nil ws : Forall2 piece_ok [] ws -> ws = [].
Proof. intros F. inversion F. reflexivity. Qed.

(** ** The two list detectors of the classifier *)

Lemma has_pair_adjacent P Q s : has_pair P Q s = true <-> adjacent P Q s.
Proof.
  induction s as [|a s IH].
  - split; [discriminate|]. intros (pre & x & y & suf & E & _).
    destruct pre; discriminate.
  - simpl. destruct s as [|b s].
    + split; [discriminate|]. intros (pre & x & y & suf & E & _).
      destruct pre as [|? [|? ?]]; discriminate.
    + rewrite orb_true_iff, andb_true_iff, IH. split.
      * intros [[HP HQ]|(pre & x & y & suf & E & HP & HQ)].
        -- exists [], a, b, s. auto.
        -- exists (a :: pre), x, y, suf. rewrite E. auto.
      * intros (pre & x & y & suf & E & HP & HQ).
        destruct pre as [|c pre]; simpl in E; inversion E; subst.
        -- left. auto.
        -- right. exists pre, x, y, suf. auto.
Qed.

Lemma found_unanchored its s :
  Re.found (Re.Pattern false its) s = true <->
  exists pre ws r, Re.search_items its s = Some (pre, ws, r).
Proof.
  unfold Re.found, Re.search; simpl.
  destruct (Re.search_items its s) as [[[pre ws] r]|].
  - split; eauto.
  - split; [discriminate|]. intros (? & ? & ? & ?). discriminate.
Qed.

Lemma found_somewhere its s1 s2 ws r :
  Re.match_here its s2 = Some (ws, r) ->
  Re.found (Re.Pattern false its) (s1 ++ s2) = true.
Proof.
  intros M. unfold Re.found, Re.search; simpl.
  destruct (Re.search_items its (s1 ++ s2)) eqn:S; [reflexivity|].
  apply search_items_none in S. congruence.
Qed.

(** [\d+\.] is found exactly where a digit stands before a period. *)
Lemma found_numbered_adjacent s :
  Re.found re_numbered s = true <-> adjacent Re.digit (Re.lit 46) s.
Proof.
  split.
  - intros H. apply found_unanchored in H. destruct H as (pre & ws & r & H).
    apply search_items_inv in H. destruct H as [-> F].
    apply pieces_cons in F. destruct F as (w1 & ws1 & -> & D & N & F).
    apply pieces_cons in F. destruct F as (w2 & ws2 & -> & C & [c ->] & F).
    apply pieces_nil in F. subst ws2. simpl in N.
    destruct (exists_last N) as (w1' & d & ->).
    apply Forall_app in D. destruct D as [_ D]. inversion D; subst.
    exists (pre ++ w1'), d, c, r. simpl in *.
    repeat split; auto.
    + rewrite <- !app_assoc. simpl. reflexivity.
    + inversion C; subst; auto.
  - intros (pre & d & c & suf & -> & D & C).
    unfold Re.lit in C. apply Z.eqb_eq in C. subst c.
    eapply (found_somewhere _ pre (d :: 46 :: suf)).
    simpl. unfold Re.digit in D |- *. rewrite D. simpl.
    destruct suf; simpl; reflexivity.
Qed.

(** [[-•*]\s] is found exactly where a mark stands before a blank. *)
Lemma found_bullet_adjacent s :
  Re.found re_bullet s = true <-> adjacent Re.bullet_mark Re.space s.
Proof.
  split.
  - intros H. apply found_unanchored in H. destruct H as (pre & ws & r & H).
    apply search_items_inv in H. destruct H as [-> F].
    apply pieces_cons in F. destruct F as (w1 & ws1 & -> & D1 & [a ->] & F).
    apply pieces_cons in F. destruct F as (w2 & ws2 & -> & D2 & [b ->] & F).
    apply pieces_nil in F. subst ws2.
    exists pre, a, b, r. simpl in *.
    inversion D1; inversion D2; subst. auto.
  - intros (pre & a & b & suf & -> & A & B).
    eapply (found_somewhere _ pre (a :: b :: suf)).
    simpl. rewrite A, B. simpl. reflexivity.
Qed.

Lemma bool_eq_iff (a b : bool) : (a = true <-> b = true) -> a = b.
Proof. destruct a, b; intros [H1 H2]; auto; try (symmetry; auto). Qed.

Lemma has_numbered_list_pair s :
  has_numbered_list s = has_pair Re.digit (Re.lit 46) s.
Proof.
  apply bool_eq_iff. unfold has_numbered_list.
  now rewrite found_numbered_adjacent, has_pair_adjacent.
Qed.

Lemma has_bullet_points_pair s :
  has_bullet_points s = has_pair Re.bullet_mark Re.space s.
Proof.
  apply bool_eq_iff. unfold has_bullet_points.
  now rewrite found_bullet_adjacent, has_pair_adjacent.
Qed.

(** ** Substrings *)

Lemma startswith_prefix p : forall s,
  Py.startswith p s = true <-> exists suf, s = p ++ suf.
Proof.
  induction p as [|a p IH]; intros s; simpl.
  - split; eauto.
  - destruct s as [|c s].
    + split; [discriminate|]. intros [suf E]. discriminate.
    + rewrite andb_true_iff, Z.eqb_eq, IH. split.
      * intros [-> [suf ->]]. eauto.
      * intros [suf E]. inversion E; subst. eauto.
Qed.

Lemma contains_occurs w : forall s, Py.contains w s = true <-> occurs w s.
Proof.
  induction s as [|c s IH]; simpl; rewrite orb_true_iff, startswith_prefix.
  - split.
    + intros [[suf E]|H]; [|discriminate]. exists [], suf. exact E.
    + intros (pre & suf & E). left. destruct pre; [eauto | discriminate].
  - rewrite IH. split.
    + intros [[suf E]|(pre & suf & E)].
      * exists [], suf. exact E.
      * exists (c :: pre), suf. simpl. now rewrite E.
    + intros (pre & suf & E). destruct pre as [|a pre]; simpl in E.
      * left. eauto.
      * right. inversion E; subst. exists pre, suf. reflexivity.
Qed.

Lemma any_in_present words s :
  Py.any_in words (Py.lower s) = true <-> keyword_present words s.
Proof.
  unfold Py.any_in, keyword_present. rewrite existsb_exists.
  split; intros (w & I & H); exists w; split; auto; now apply contains_occurs.
Qed.

Lemma adjacent_numbered s :
  adjacent Re.digit (Re.lit 46) s <-> numbered_list_pattern s.
Proof.
  split.
  - intros (pre & d & c & suf & -> & D & C).
    apply Z.eqb_eq in C. subst c.
    exists pre, [d], suf. repeat split; auto; discriminate.
  - intros (pre & ds & suf & -> & N & D).
    destruct (exists_last N) as (ds' & d & ->).
    apply Forall_app in D. destruct D as [_ D]. inversion D; subst.
    exists (pre ++ ds'), d, 46, suf. repeat split; auto.
    rewrite <- !app_assoc. reflexivity.
Qed.

Lemma adjacent_bullet s :
  adjacent Re.bullet_mark Re.space s <-> bullet_mark_anywhere s.
Proof.
  unfold adjacent, bullet_mark_anywhere, Re.bullet_mark, Re.space.
  split; intros (pre & a & b & suf & E & A & B); exists pre, a, b, suf;
    repeat split; auto.
  - rewrite !orb_true_iff, !Z.eqb_eq in A. tauto.
  - rewrite !orb_true_iff, !Z.eqb_eq. tauto.
Qed.

(** ** Claims on the classifier *)

(** C4, as the code has it.  The classifier answers true exactly when a
    product keyword or a brand keyword occurs in the text, letter case apart,
    and moreover a recommendation word occurs, letter case apart, or an
    integer stands immediately before a period, or a dash, a bullet glyph or
    an asterisk is immediately followed by a white-space character
    somewhere in the text, at the start of a line or not. *)
Theorem product_recommendation_decision_rule (s : str) :
  _is_product_recommendation s = true <->
  (keyword_present product_keywords s \/ keyword_present brand_keywords s)
  /\ (keyword_present recommendation_words s \/ numbered_list_pattern s
      \/ bullet_mark_anywhere s).
Proof.
  unfold _is_product_recommendation.
  rewrite andb_true_iff, !orb_true_iff, !any_in_present.
  unfold has_numbered_list, has_bullet_points.
  rewrite found_numbered_adjacent, adjacent_numbered.
  rewrite found_bullet_adjacent, adjacent_bullet. tauto.
Qed.

(** C4, as stated, fails when the bullet pattern is the one of a list, a
    mark at the start of a line: [phone - nice] holds a product keyword and
    the classifier accepts it, but it holds no recommendation word, no
    integer before a period, and its only line begins with a letter. *)
Lemma decision_rule_not_line_anchored :
  ~ (_is_product_recommendation (u "phone - nice") = true <->
     (keyword_present product_keywords (u "phone - nice")
      \/ keyword_present brand_keywords (u "phone - nice"))
     /\ (keyword_present recommendation_words (u "phone - nice")
         \/ numbered_list_pattern (u "phone - nice")
         \/ bullet_line (u "phone - nice"))).
Proof.
  intros [H _].
  assert (T : _is_product_recommendation (u "phone - nice") = true)
    by (vm_compute; reflexivity).
  destruct (H T) as [_ [R|[L|B]]].
  - apply any_in_present in R. vm_compute in R. discriminate R.
  - apply adjacent_numbered, found_numbered_adjacent in L.
    vm_compute in L. discriminate L.
  - destruct B as (l & b & w & rest & I & E & B & _).
    vm_compute in I. destruct I as [<-|[]].
    inversion E; subst. lia.
Qed.

(** C5, as the code has it.  The bullet detector of the classifier fires
    exactly when a dash, a bullet glyph or an asterisk is immediately
    followed by a white-space character somewhere in the text, at the start
    of a line or not. *)
Theorem bullet_detector_fires_anywhere (s : str) :
  has_bullet_points s = true <-> bullet_mark_anywhere s.
Proof.
  unfold has_bullet_points.
  now rewrite found_bullet_adjacent, adjacent_bullet.
Qed.

(** C5, as stated, fails: the dash of [phone - nice] is followed by a blank
    and the detector fires, but the only line of the text begins with a
    letter. *)
Lemma bullet_detector_not_line_anchored :
  ~ (has_bullet_points (u "phone - nice") = true
     <-> bullet_line (u "phone - nice")).
Proof.
  intros [H _].
  destruct (H eq_refl) as (l & b & w & rest & I & E & B & _).
  vm_compute in I. destruct I as [<-|[]].
  inversion E; subst. lia.
Qed.

(** ** Letter case *)

Lemma upper_letters c :
  65 <= c <= 90 -> In c (map Z.of_nat (seq 65 26)).
Proof.
  intros H. replace c with (Z.of_nat (Z.to_nat c)) by lia.
  apply in_map, in_seq. lia.
Qed.

Lemma case_blind_check (P : char -> bool) :
  forallb (fun c => negb (P c) && negb (P (c + 32)))
          (map Z.of_nat (seq 65 26)) = true ->
  P 304 = false -> P 105 = false -> P 775 = false ->
  P 8490 = false -> P 107 = false ->
  case_blind P.
Proof.
  intros U H1 H2 H3 H4 H5 c. unfold Py.lower_char.
  destruct ((65 <=? c) && (c <=? 90)) eqn:R.
  - right. rewrite forallb_forall in U.
    assert (I : In c (map Z.of_nat (seq 65 26))) by (apply upper_letters; lia).
    apply U in I. apply andb_true_iff in I. destruct I as [A B].
    apply negb_true_iff in A, B. split; [exact A|].
    exists (c + 32), []. auto.
  - destruct (c =? 304) eqn:E1.
    + apply Z.eqb_eq in E1. subst c. right. split; [exact H1|].
      exists 105, [775]. auto.
    + destruct (c =? 8490) eqn:E2; [|now left].
      apply Z.eqb_eq in E2. subst c. right. split; [exact H4|].
      exists 107, []. auto.
Qed.

Lemma case_blind_digit : case_blind Re.digit.
Proof. apply case_blind_check; reflexivity. Qed.

Lemma case_blind_period : case_blind (Re.lit 46).
Proof. apply case_blind_check; reflexivity. Qed.

Lemma case_blind_bullet_mark : case_blind Re.bullet_mark.
Proof. apply case_blind_check; reflexivity. Qed.

Lemma case_blind_space : case_blind Re.space.
Proof. apply case_blind_check; reflexivity. Qed.

Section CaseBlind.

Variables P Q : char -> bool.
Hypothesis blind_P : case_blind P.
Hypothesis blind_Q : case_blind Q.

Lemma has_pair_cons a s :
  has_pair P Q (a :: s) = (P a && head_in Q s) || has_pair P Q s.
Proof. destruct s; simpl; [now rewrite andb_false_r | reflexivity]. Qed.

Lemma has_pair_skip l : forall s,
  Forall (fun y => P y = false) l -> has_pair P Q (l ++ s) = has_pair P Q s.
Proof.
  induction l as [|x l IH]; intros s F; [reflexivity|].
  inversion F as [|? ? Hx Hl]; subst.
  change ((x :: l) ++ s) with (x :: (l ++ s)).
  rewrite has_pair_cons, Hx. simpl. now apply IH.
Qed.

Lemma head_in_lower s : head_in Q (Py.lower s) = head_in Q s.
Proof.
  destruct s as [|c s]; [reflexivity|].
  unfold Py.lower. simpl.
  destruct (blind_Q c) as [E|[Hc (x & l & E & F)]]; rewrite E; simpl.
  - reflexivity.
  - inversion F; subst. congruence.
Qed.

(** Lower-casing neither creates nor destroys a pair of neighbours taken
    from two case-blind classes. *)
Lemma has_pair_lower s : has_pair P Q (Py.lower s) = has_pair P Q s.
Proof.
  induction s as [|c s IH]; [reflexivity|].
  rewrite has_pair_cons.
  change (Py.lower (c :: s)) with (Py.lower_char c ++ Py.lower s).
  destruct (blind_P c) as [E|[Hc (x & l & E & F)]].
  - rewrite E. change ([c] ++ Py.lower s) with (c :: Py.lower s).
    rewrite has_pair_cons, IH, head_in_lower. reflexivity.
  - rewrite E, has_pair_skip by assumption. rewrite IH, Hc. reflexivity.
Qed.

End CaseBlind.

Lemma lower_char_fixed c x : In x (Py.lower_char c) -> Py.lower_char x = [x].
Proof.
  unfold Py.lower_char at 1.
  destruct ((65 <=? c) && (c <=? 90)) eqn:R.
  - intros [<-|[]]. unfold Py.lower_char.
    replace ((65 <=? c + 32) && (c + 32 <=? 90)) with false by lia.
    replace (c + 32 =? 304) with false by lia.
    replace (c + 32 =? 8490) with false by lia. reflexivity.
  - destruct (c =? 304) eqn:E1.
    + intros [<-|[<-|[]]]; reflexivity.
    + destruct (c =? 8490) eqn:E2.
      * intros [<-|[]]; reflexivity.
      * intros [<-|[]]. unfold Py.lower_char. now rewrite R, E1, E2.
Qed.

Lemma lower_fixed s :
  (forall x, In x s -> Py.lower_char x = [x]) -> Py.lower s = s.
Proof.
  induction s as [|c s IH]; intros H; [reflexivity|].
  change (Py.lower (c :: s)) with (Py.lower_char c ++ Py.lower s).
  rewrite (H c), IH; [reflexivity | | now left].
  intros x I. apply H. now right.
Qed.

Lemma lower_idempotent s : Py.lower (Py.lower s) = Py.lower s.
Proof.
  apply lower_fixed. intros x I. unfold Py.lower in I.
  apply in_flat_map in I. destruct I as (c & _ & I).
  now apply lower_char_fixed in I.
Qed.

(** ** The lower-case table is enough

    [Py.lower_char] leaves alone the cased characters whose lower-case forms
    are outside ASCII.  Whatever [str.lower] makes of them, the classifier
    answers the same. *)

Lemma lower_form_model s : lower_form s (Py.lower s).
Proof.
  induction s as [|c s IH]; [constructor|].
  change (Py.lower (c :: s)) with (Py.lower_char c ++ Py.lower s).
  now constructor.
Qed.

Lemma word_tail a w : word (a :: w) -> w = [] \/ word w.
Proof.
  intros [_ F]. inversion F; subst.
  destruct w; [now left | right; split; [discriminate | assumption]].
Qed.

Lemma startswith_irrelevant w x r :
  word w -> relevant x = false -> Py.startswith w (x :: r) = false.
Proof.
  intros [N F] X. destruct w as [|a w]; [congruence|].
  inversion F as [|? ? A _]; subst. simpl.
  replace (a =? x) with false; [reflexivity|].
  symmetry. apply Z.eqb_neq. intros ->. congruence.
Qed.

Lemma contains_cons w x r :
  Py.contains w (x :: r) = Py.startswith w (x :: r) || Py.contains w r.
Proof. reflexivity. Qed.

Lemma same_words_cons x r1 r2 :
  same_words r1 r2 -> same_words (x :: r1) (x :: r2).
Proof.
  intros A w W. destruct (A w W) as [_ C].
  assert (S : Py.startswith w (x :: r1) = Py.startswith w (x :: r2)).
  { destruct w as [|a w]; [reflexivity|]. simpl.
    destruct (word_tail _ _ W) as [->|W']; [reflexivity|].
    destruct (A w W') as [S' _]. now rewrite S'. }
  split; [exact S|]. now rewrite !contains_cons, S, C.
Qed.

Lemma same_words_app seg r1 r2 :
  same_words r1 r2 -> same_words (seg ++ r1) (seg ++ r2).
Proof.
  intros A. induction seg as [|x seg IH]; [exact A|].
  now apply same_words_cons.
Qed.

Lemma contains_skip w seg r :
  word w -> Forall (fun x => relevant x = false) seg ->
  Py.contains w (seg ++ r) = Py.contains w r.
Proof.
  intros W. induction 1 as [|x seg X _ IH]; [reflexivity|].
  change ((x :: seg) ++ r) with (x :: (seg ++ r)).
  now rewrite contains_cons, startswith_irrelevant, IH.
Qed.

Lemma same_words_other seg c r1 r2 :
  seg <> [] -> Forall (fun x => relevant x = false) seg ->
  relevant c = false ->
  same_words r1 r2 -> same_words (seg ++ r1) (c :: r2).
Proof.
  intros N F C A w W. destruct (A w W) as [_ E]. split.
  - destruct seg as [|x seg]; [congruence|]. inversion F; subst.
    change ((x :: seg) ++ r1) with (x :: (seg ++ r1)).
    now rewrite !startswith_irrelevant.
  - rewrite contains_skip, contains_cons, startswith_irrelevant by assumption.
    exact E.
Qed.

Lemma lower_form_words s out : lower_form s out -> same_words out (Py.lower s).
Proof.
  induction 1 as [|c s out _ IH|c seg s out T C N F _ IH].
  - intros w W. auto.
  - change (Py.lower (c :: s)) with (Py.lower_char c ++ Py.lower s).
    now apply same_words_app.
  - change (Py.lower (c :: s)) with (Py.lower_char c ++ Py.lower s).
    rewrite T. now apply same_words_other.
Qed.

Lemma keywords_are_words :
  Forall word (product_keywords ++ brand_keywords ++ recommendation_words).
Proof.
  repeat constructor; try discriminate.
Qed.

Lemma any_in_same_words words r1 r2 :
  Forall word words -> same_words r1 r2 ->
  Py.any_in words r1 = Py.any_in words r2.
Proof.
  intros F A. unfold Py.any_in.
  induction F as [|w words W _ IH]; [reflexivity|].
  simpl. destruct (A w W) as [_ ->]. now rewrite IH.
Qed.

(** The classifier run on any admissible lower-case form of the text gives
    the answer of [_is_product_recommendation]. *)
Lemma lower_table_adequate s out :
  lower_form s out -> classify_with out s = _is_product_recommendation s.
Proof.
  intros L. apply lower_form_words in L.
  pose proof keywords_are_words as K.
  apply Forall_app in K. destruct K as [K1 K]. apply Forall_app in K.
  destruct K as [K2 K3].
  unfold classify_with, _is_product_recommendation.
  now rewrite !(any_in_same_words _ out (Py.lower s)).
Qed.

Section PairsOfForms.

Variables P Q : char -> bool.
Hypothesis blind_P : case_blind P.
Hypothesis blind_Q : case_blind Q.
Hypothesis relevant_P : forall c, relevant c = false -> P c = false.
Hypothesis relevant_Q : forall c, relevant c = false -> Q c = false.

Lemma head_in_form s out : lower_form s out -> head_in Q out = head_in Q s.
Proof.
  destruct 1 as [|c s out _|c seg s out _ C N F _]; [reflexivity| |].
  - destruct (blind_Q c) as [E|[Hc (x & l & E & F)]]; rewrite E; simpl.
    + reflexivity.
    + inversion F; subst. congruence.
  - destruct seg as [|x seg]; [congruence|]. inversion F; subst. simpl.
    rewrite !relevant_Q by assumption. reflexivity.
Qed.

(** No lower-case form creates or destroys a pair of neighbours taken from
    two case-blind classes of relevant characters. *)
Lemma has_pair_form s out :
  lower_form s out -> has_pair P Q out = has_pair P Q s.
Proof.
  induction 1 as [|c s out L IH|c seg s out T C N F L IH]; [reflexivity| |].
  - rewrite has_pair_cons.
    destruct (blind_P c) as [E|[Hc (x & l & E & F)]].
    + rewrite E. change ([c] ++ out) with (c :: out).
      rewrite has_pair_cons, IH, (head_in_form _ _ L). reflexivity.
    + rewrite E, has_pair_skip by assumption. rewrite IH, Hc. reflexivity.
  - assert (FP : Forall (fun y => P y = false) seg).
    { eapply Forall_impl; [|exact F]. intros a Ha. now apply relevant_P. }
    rewrite (has_pair_skip P Q seg out FP), IH, has_pair_cons.
    rewrite (relevant_P c C). reflexivity.
Qed.

End PairsOfForms.

Lemma relevant_false c :
  relevant c = false ->
  Re.digit c = false /\ Re.lit 46 c = false
  /\ Re.bullet_mark c = false /\ Re.space c = false.
Proof.
  unfold relevant. rewrite !orb_false_iff. tauto.
Qed.

(** Two texts with a common lower-case form, whatever [str.lower] does
    outside the table, are classified alike. *)
Lemma classification_any_lower_form s t out :
  lower_form s out -> lower_form t out ->
  _is_product_recommendation s = _is_product_recommendation t.
Proof.
  intros Ls Lt.
  rewrite <- (lower_table_adequate s out Ls), <- (lower_table_adequate t out Lt).
  unfold classify_with.
  rewrite !has_numbered_list_pair, !has_bullet_points_pair.
  rewrite <- (has_pair_form _ _ case_blind_digit case_blind_period
                (fun c H => proj1 (relevant_false c H))
                (fun c H => proj1 (proj2 (relevant_false c H))) s out Ls).
  rewrite <- (has_pair_form _ _ case_blind_digit case_blind_period
                (fun c H => proj1 (relevant_false c H))
                (fun c H => proj1 (proj2 (relevant_false c H))) t out Lt).
  rewrite <- (has_pair_form _ _ case_blind_bullet_mark case_blind_space
                (fun c H => proj1 (proj2 (proj2 (relevant_false c H))))
                (fun c H => proj2 (proj2 (proj2 (relevant_false c H)))) s out Ls).
  rewrite <- (has_pair_form _ _ case_blind_bullet_mark case_blind_space
                (fun c H => proj1 (proj2 (proj2 (relevant_false c H))))
                (fun c H => proj2 (proj2 (proj2 (relevant_false c H)))) t out Lt).
  reflexivity.
Qed.

(** The classifier reads the text through its lower-case form and through
    the two list detectors only. *)
Lemma classifier_factors s :
  _is_product_recommendation s =
  (Py.any_in product_keywords (Py.lower s)
   || Py.any_in brand_keywords (Py.lower s))
  && (Py.any_in recommendation_words (Py.lower s)
      || has_pair Re.digit (Re.lit 46) (Py.lower s)
      || has_pair Re.bullet_mark Re.space (Py.lower s)).
Proof.
  unfold _is_product_recommendation.
  rewrite has_numbered_list_pair, has_bullet_points_pair.
  rewrite (has_pair_lower _ _ case_blind_digit case_blind_period).
  rewrite (has_pair_lower _ _ case_blind_bullet_mark case_blind_space).
  reflexivity.
Qed.

(** C9.  The classifier gives the same answer on two texts that are equal
    up to letter case, that is, that have the same lower-case form; in
    particular it gives the same answer on a text and on its lower-case
    form.  Being a function of its argument and of the fixed word lists, it
    gives the same answer whenever it is run on the same text. *)
Theorem classification_case_insensitive (s t : str) :
  Py.lower s = Py.lower t ->
  _is_product_recommendation s = _is_product_recommendation t
  /\ _is_product_recommendation (Py.lower s) = _is_product_recommendation s.
Proof.
  intros E. rewrite !classifier_factors, lower_idempotent, E. auto.
Qed.

(** The theorem at a text in capitals and its lower-case spelling. *)
Lemma classification_case_insensitive_witness :
  Py.lower (u "Best PHONE") = Py.lower (u "best phone")
  /\ _is_product_recommendation (u "Best PHONE")
     = _is_product_recommendation (u "best phone")
  /\ _is_product_recommendation (Py.lower (u "Best PHONE"))
     = _is_product_recommendation (u "Best PHONE").
Proof.
  split; [reflexivity|].
  apply (classification_case_insensitive (u "Best PHONE") (u "best phone")).
  reflexivity.
Defined.

(** ** Claims on the top-level call *)

(** The body of the [try] does raise on some texts. *)
Lemma body_can_raise (cap : N) :
  format_response_body cap huge_rating_text = Raise OverflowError.
Proof. by_evaluation. Qed.

(** C1.  [format_llm_response] returns markup for every text and raises
    nothing: the markup is the one computed by the body of the [try], or,
    when the body raises, the fallback markup of the text. *)
Theorem format_response_total (cap : N) (s : str) :
  exists html,
    format_llm_response cap s = Ok html
    /\ (format_response_body cap s = Ok html
        \/ html = _format_fallback_response s).
Proof.
  unfold format_llm_response, format_response, try_except.
  destruct (format_response_body cap s) as [html|e].
  - exists html. auto.
  - exists (_format_fallback_response s). auto.
Qed.

(** The empty text and a text of blanks both come back as an empty
    container, a text that makes the renderer raise as the fallback markup. *)
Lemma format_edge_texts (cap : N) :
  format_llm_response cap (u "") = Ok (tpl "<div class=~general-response~></div>")
  /\ format_llm_response cap (u "   ")
     = Ok (tpl "<div class=~general-response~></div>")
  /\ format_llm_response cap huge_rating_text
     = Ok (_format_fallback_response huge_rating_text).
Proof. split; [|split]; by_evaluation. Qed.

(** A rating of fourteen digits has a finite float, but a machine that can
    build a million glyphs cannot build the stars: the renderer raises
    [MemoryError] and the text comes back as the fallback markup. *)
Lemma rating_beyond_capacity_falls_back :
  format_response_body million long_rating_text = Raise MemoryError
  /\ format_llm_response million long_rating_text
     = Ok (_format_fallback_response long_rating_text).
Proof. split; by_evaluation. Qed.

(** C8.  When the body of the [try] raises, whatever the exception,
    [format_response] returns the fallback markup, and that markup holds
    the text as it was received, between a fixed opening and a fixed
    closing. *)
Theorem exception_gives_fallback_of_raw_text (cap : N) (s : str) (e : exn) :
  format_response_body cap s = Raise e ->
  format_response cap s = Ok (_format_fallback_response s)
  /\ _format_fallback_response s =
     line 8 "<div class=~general-response~>"
     ++ line 12 "<p class=~response-paragraph~>" ++ s
     ++ tpl "</p>" ++ line 8 "</div>" ++ line 8 "".
Proof.
  intros H. unfold format_response. rewrite H. simpl. split; reflexivity.
Qed.

(** The theorem at a text whose rendering raises, and that normalization
    changes. *)
Lemma exception_gives_fallback_of_raw_text_witness :
  format_response_body million huge_rating_text = Raise OverflowError
  /\ _clean_response huge_rating_text <> huge_rating_text
  /\ format_response million huge_rating_text
     = Ok (_format_fallback_response huge_rating_text).
Proof.
  split; [exact (body_can_raise million)|].
  split; [vm_compute; discriminate|].
  apply (exception_gives_fallback_of_raw_text million huge_rating_text
           OverflowError).
  exact (body_can_raise million).
Defined.

(** C6.  A text that the classifier accepts once normalized, and in which
    the extractor finds no product, is rendered by the generic renderer
    applied to the normalized text. *)
Theorem no_items_degrades_to_generic (cap : N) (s : str) :
  _is_product_recommendation (_clean_response s) = true ->
  _extract_products (_clean_response s) = [] ->
  format_response cap s = Ok (_format_general_response (_clean_response s)).
Proof.
  intros C E. unfold format_response, format_response_body.
  rewrite C. unfold _format_product_recommendation. rewrite E. reflexivity.
Qed.

(** The theorem at a recommendation without numbered items. *)
Lemma no_items_degrades_to_generic_witness :
  _is_product_recommendation
    (_clean_response (u "I recommend this smartphone")) = true
  /\ _extract_products (_clean_response (u "I recommend this smartphone")) = []
  /\ format_response million (u "I recommend this smartphone")
     = Ok (_format_general_response
             (_clean_response (u "I recommend this smartphone"))).
Proof.
  split; [reflexivity|]. split; [reflexivity|].
  apply (no_items_degrades_to_generic million
           (u "I recommend this smartphone"));
    reflexivity.
Defined.


(** Product markup is only ever produced from at least one record. *)
Lemma product_block_never_empty (cap : N) (s : str) (html : str) :
  _format_product_recommendation cap s = Ok html ->
  html = _format_general_response s
  \/ exists p ps, _extract_products s = p :: ps
                  /\ _create_product_cards cap (p :: ps) s = Ok html.
Proof.
  unfold _format_product_recommendation.
  destruct (_extract_products s) as [|p ps].
  - intros [= <-]. now left.
  - intros H. right. eauto.
Qed.

(** ** Claims on the extractor and on the introduction *)

(** C2, on the code.  The two numbered items give two records, in order,
    named [Phone A] and [Phone B] and priced [₹20,000] and [$300]; but the
    text of the first item ends before the period of [4.5], so that its
    rating is empty and not [4.5]. *)
Theorem extract_two_numbered_items :
  _extract_products two_items =
  [ Product (u "Phone A") (u "₹20,000") [] (u "Phone A - ₹20,000 4");
    Product (u "Phone B") (u "$300") [] (u "Phone B - $300") ].
Proof. by_evaluation. Qed.

(** The same records come out of the normalized text, where the line break
    between the items has become a blank. *)
Lemma normalized_items_same_records :
  _extract_products (_clean_response two_items) = _extract_products two_items.
Proof. by_evaluation. Qed.

Lemma extract_loop_In p : forall matches,
  In p (extract_loop matches) ->
  exists ws, In ws matches /\ extract_item (nth 3 ws []) = Some p.
Proof.
  induction matches as [|ws rest IH]; simpl; [tauto|].
  destruct (extract_item (nth 3 ws [])) as [q|] eqn:E.
  - intros [<-|H]; [eauto|]. destruct (IH H) as (ws' & I & E'). eauto.
  - intros H. destruct (IH H) as (ws' & I & E'). eauto.
Qed.

(** The text of an item holds neither a period nor a line break. *)
Lemma item_content_class s ws :
  In ws (Re.findall re_item s) ->
  Forall (fun c => Re.not_dot_nl c = true) (nth 3 ws []).
Proof.
  intros I. apply findall_go_inv in I. simpl in I.
  apply pieces_cons in I. destruct I as (w1 & ws1 & -> & _ & _ & I).
  apply pieces_cons in I. destruct I as (w2 & ws2 & -> & _ & _ & I).
  apply pieces_cons in I. destruct I as (w3 & ws3 & -> & _ & _ & I).
  apply pieces_cons in I. destruct I as (w4 & ws4 & -> & F & _ & I).
  exact F.
Qed.



(** Whatever the text, the rating pattern captures nothing or a text of the
    shape [rating_token]. *)
Lemma rating_capture_token content :
  group_first 3 (Re.search re_rating content) = []
  \/ rating_token (group_first 3 (Re.search re_rating content)).
Proof.
  unfold Re.search; simpl.
  destruct (Re.search_items _ content) as [[[pre ws] r]|] eqn:S;
    [|now left].
  right. apply search_items_inv in S. destruct S as [E I]. simpl.
  apply pieces_cons in I. destruct I as (d1 & ws1 & -> & D1 & N1 & I).
  apply pieces_cons in I. destruct I as (o & ws2 & -> & O & L & I).
  apply pieces_cons in I. destruct I as (d2 & ws3 & -> & D2 & _ & I).
  simpl in *. rewrite app_nil_r.
  destruct o as [|c [|c' o]]; [| |simpl in L; lia].
  - exists (d1 ++ d2), []. repeat split.
    + destruct d1; [congruence | discriminate].
    + apply Forall_app. auto.
    + constructor.
    + now left.
  - inversion O as [|? ? Hc _]; subst. apply Z.eqb_eq in Hc. subst c.
    exists d1, d2. repeat split; auto.
Qed.

Lemma split_period_pieces s :
  Forall (fun x => ~ In 46 x) (Py.split (u ".") s).
Proof.
  unfold Py.split. change (u ".") with [46].
  assert (H : forall s, let (h, t) := Py.split_go [46] 0 s in
                        ~ In 46 h /\ Forall (fun x => ~ In 46 x) t).
  { clear s. induction s as [|c s IH]; cbn -[Z.eqb].
    - split; [tauto | constructor].
    - destruct (Py.split_go [46] 0 s) as [h t]. destruct IH as [Hh Ht].
      destruct (46 =? c) eqn:E; cbn -[Z.eqb].
      + split; [tauto | constructor; auto].
      + split; [|exact Ht]. intros [->|I]; [|tauto]. discriminate. }
  specialize (H s). destruct (Py.split_go [46] 0 s) as [h t].
  destruct H. constructor; auto.
Qed.

Lemma numbered_needs_period x : ~ In 46 x -> Re.found re_numbered x = false.
Proof.
  intros N. destruct (Re.found re_numbered x) eqn:F; [|reflexivity].
  apply found_numbered_adjacent in F.
  destruct F as (pre & d & c & suf & -> & _ & C).
  apply Z.eqb_eq in C. subst c. exfalso. apply N.
  apply in_or_app. right. right. now left.
Qed.

(** The test that should stop the loop of [_get_recommendation_intro] looks
    for a period in a piece of text cut at the periods: it never holds, and
    the loop keeps every sentence. *)
Lemma intro_loop_never_stops s :
  intro_loop (Py.split (u ".") s) = map Py.strip (Py.split (u ".") s).
Proof.
  pose proof (split_period_pieces s) as F.
  induction (Py.split (u ".") s) as [|x l IH]; [reflexivity|].
  inversion F; subst. simpl.
  rewrite numbered_needs_period by assumption. now rewrite IH.
Qed.

(** C3, on the code.  The introduction is built from all the sentences of
    the text, those of the numbered list included.  The text
    [Here are phones. 1. Phone A - $300] is rendered on the product path,
    and its introduction is the whole text closed by a period, not the one
    sentence that precedes the list. *)
Theorem intro_keeps_every_sentence (cap : N) :
  (forall s, _get_recommendation_intro s =
             let intro :=
               Py.strip (Py.join (u ". ") (map Py.strip (Py.split (u ".") s))) in
             let intro :=
               if nonempty intro && negb (Py.endswith (u ".") intro)
               then intro ++ u "." else intro in
             if nonempty intro then intro else default_intro)
  /\ format_response_body cap one_sentence_then_list
     = _create_product_cards cap
         [Product (u "Phone A") (u "$300") [] (u "Phone A - $300")]
         one_sentence_then_list
  /\ _get_recommendation_intro one_sentence_then_list
     = u "Here are phones. 1. Phone A - $300."
  /\ _get_recommendation_intro one_sentence_then_list
     <> u "Here are phones.".
Proof.
  split; [|split; [|split]].
  - intros s. unfold _get_recommendation_intro.
    now rewrite intro_loop_never_stops.
  - by_evaluation.
  - by_evaluation.
  - vm_compute. discriminate.
Qed.

(** ** Normalized text has a single line *)

Lemma greedy_none cls k : forall s,
  Re.greedy cls k s = None -> exists s', k s' = None.
Proof.
  induction s as [|c s IH]; simpl.
  - destruct (k []) eqn:K; [discriminate | eauto].
  - destruct (cls c).
    + destruct (Re.greedy cls k s) as [[w r]|]; [discriminate|].
      destruct (k (c :: s)) eqn:K; [discriminate | eauto].
    + destruct (k (c :: s)) eqn:K; [discriminate | eauto].
Qed.

Lemma match_spaces_none c s :
  Re.match_here (Re.items re_spaces) (c :: s) = None -> Py.isspace c = false.
Proof.
  cbn [Re.match_here Re.items re_spaces]. unfold Re.space.
  destruct (Py.isspace c); [|reflexivity].
  destruct (Re.greedy _ _ s) as [[w [ws r]]|] eqn:G; [discriminate|].
  apply greedy_none in G. destruct G as [s' G]. discriminate.
Qed.

Lemma sub_go_cons p repl skip c s :
  Re.sub_go p repl skip (c :: s) =
  match skip with
  | S k => Re.sub_go p repl k s
  | O =>
    match Re.match_here p (c :: s) with
    | Some (ws, _) => repl ++ Re.sub_go p repl (length (concat ws) - 1) s
    | None => c :: Re.sub_go p repl 0 s
    end
  end.
Proof. reflexivity. Qed.

(** After [re.sub(r'\s+', ' ', ...)] the only white space left is the
    blank. *)
Lemma sub_spaces_chars : forall s skip,
  Forall (fun y => y = 32 \/ Py.isspace y = false)
         (Re.sub_go (Re.items re_spaces) (u " ") skip s).
Proof.
  induction s as [|c s IH]; intros skip; [constructor|].
  rewrite sub_go_cons. destruct skip as [|k]; [|apply IH].
  destruct (Re.match_here (Re.items re_spaces) (c :: s)) as [[ws r]|] eqn:M.
  - change (u " ") with [32]. constructor; [now left | apply IH].
  - constructor; [right; now apply match_spaces_none in M | apply IH].
Qed.

Lemma replace_go_removes old : forall s skip y,
  In y (Py.replace_go old [] skip s) -> In y s.
Proof.
  induction s as [|c s IH]; intros skip y; simpl; [tauto|].
  destruct skip as [|k].
  - destruct (Py.startswith old (c :: s)); simpl.
    + intros H. right. eapply IH; eauto.
    + intros [->|H]; [now left | right; eapply IH; eauto].
  - intros H. right. eapply IH; eauto.
Qed.

Lemma clean_no_newline s : ~ In 10 (_clean_response s).
Proof.
  unfold _clean_response, Py.replace. intros I.
  apply replace_go_removes in I. apply replace_go_removes in I.
  unfold Re.sub in I. simpl in I.
  pose proof (sub_spaces_chars (Py.strip s) 0) as F.
  rewrite Forall_forall in F. apply F in I.
  destruct I as [I|I]; discriminate.
Qed.

Lemma lstrip_In y : forall s, In y (Py.lstrip s) -> In y s.
Proof.
  induction s as [|c s IH]; simpl; [tauto|].
  destruct (Py.isspace c); [intros H; right; auto | auto].
Qed.

Lemma strip_In y s : In y (Py.strip s) -> In y s.
Proof.
  unfold Py.strip, Py.rstrip. intros I.
  apply in_rev, lstrip_In in I. apply in_rev in I. now apply lstrip_In in I.
Qed.

(** A text without a line break is not cut by a separator that starts with
    one. *)
Lemma split_single_line sep s :
  ~ In 10 s -> Py.split (10 :: sep) s = [s].
Proof.
  intros N. unfold Py.split.
  assert (H : Py.split_go (10 :: sep) 0 s = (s, [])).
  { induction s as [|c s IH]; [reflexivity|].
    cbn -[Z.eqb]. replace (10 =? c) with false.
    - simpl. rewrite IH; [reflexivity|]. intros I. apply N. now right.
    - symmetry. apply Z.eqb_neq. intros <-. apply N. now left. }
  now rewrite H.
Qed.

(** ** The generic renderer, block by block *)

Lemma list_loop_entries : forall lines html,
  list_loop lines html = html ++ concat (map list_item (list_entries lines)).
Proof.
  induction lines as [|l rest IH]; intros html;
    cbn [list_loop list_entries map concat].
  - now rewrite app_nil_r.
  - destruct (nonempty (Py.strip l)); [|apply IH].
    destruct (nonempty _); [|apply IH].
    rewrite IH. cbn [map concat]. now rewrite <- app_assoc.
Qed.

Lemma format_list_block text :
  _format_list text = render_block (ListBlock (list_entries (Py.split nl text))).
Proof.
  unfold _format_list. rewrite list_loop_entries. cbn [render_block].
  now rewrite <- app_assoc.
Qed.

Lemma general_loop_blocks : forall paragraphs html,
  general_loop paragraphs html
  = html ++ concat (map render_block (blocks_of paragraphs)).
Proof.
  induction paragraphs as [|p rest IH]; intros html;
    cbn [general_loop blocks_of map concat].
  - now rewrite app_nil_r.
  - destruct (nonempty (Py.strip p)); [|apply IH].
    unfold block_of. destruct (is_list_paragraph (Py.strip p)).
    + rewrite IH, format_list_block. cbn [map concat].
      now rewrite <- !app_assoc.
    + rewrite IH. cbn [map concat render_block]. now rewrite <- !app_assoc.
Qed.

(** The markup of the generic renderer is its blocks, in order, inside the
    container. *)
Lemma general_response_blocks response :
  _format_general_response response
  = tpl "<div class=~general-response~>"
    ++ concat (map render_block (general_blocks response)) ++ tpl "</div>".
Proof.
  unfold _format_general_response, general_blocks.
  rewrite general_loop_blocks. now rewrite <- app_assoc.
Qed.

Lemma list_entries_single l : (length (list_entries [l]) <= 1)%nat.
Proof.
  simpl. destruct (nonempty (Py.strip l)); [|simpl; lia].
  destruct (nonempty _); simpl; lia.
Qed.

(** C10, as the code has it.  On normalized text the generic renderer emits
    at most one block: exactly one, a paragraph or a list of at most one
    entry, when the text holds a character other than white space, and
    none when it does not. *)
Theorem generic_path_at_most_one_block (s : str) :
  let c := _clean_response s in
  _format_general_response c
  = tpl "<div class=~general-response~>"
    ++ concat (map render_block (general_blocks c)) ++ tpl "</div>"
  /\ general_blocks c
     = (if nonempty (Py.strip c) then [block_of (Py.strip c)] else [])
  /\ Forall small_block (general_blocks c).
Proof.
  intros c. split; [apply general_response_blocks|].
  assert (N : ~ In 10 c) by apply clean_no_newline.
  assert (E : general_blocks c
              = if nonempty (Py.strip c) then [block_of (Py.strip c)] else []).
  { unfold general_blocks. change (nl ++ nl) with (10 :: nl).
    rewrite split_single_line by exact N. simpl.
    destruct (nonempty (Py.strip c)); reflexivity. }
  split; [exact E|]. rewrite E.
  destruct (nonempty (Py.strip c)); constructor; [|constructor].
  unfold block_of. destruct (is_list_paragraph _); simpl; [|exact I].
  change nl with (10 :: []). rewrite split_single_line.
  - apply list_entries_single.
  - intros I. apply N. now apply strip_In in I.
Qed.

(** C10, as stated, fails: the empty text takes the generic path and the
    container comes back empty, with no block at all. *)
Lemma generic_path_empty_input_no_block :
  format_response_body million (u "")
  = Ok (_format_general_response (_clean_response (u "")))
  /\ format_response million (u "") = Ok (tpl "<div class=~general-response~></div>")
  /\ length (general_blocks (_clean_response (u ""))) <> 1%nat.
Proof.
  split; [reflexivity|]. split; [reflexivity|]. vm_compute. discriminate.
Qed.

(** ** The float model *)

(** Rounding moves a quotient by half a unit at most. *)
Lemma round_half_even_nearest n d :
  0 < d -> 2 * Z.abs (Float.round_half_even n d * d - n) <= d.
Proof.
  intros D. unfold Float.round_half_even.
  pose proof (Z.div_mod n d ltac:(lia)) as E.
  pose proof (Z.mod_pos_bound n d D) as B.
  destruct ((d <? 2 * (n mod d)) || ((2 * (n mod d) =? d) && Z.odd (n / d))) eqn:C.
  - assert (d <= 2 * (n mod d)).
    { apply Bool.orb_true_iff in C. destruct C as [C|C]; [lia|].
      apply Bool.andb_true_iff in C. lia. }
    nia.
  - apply Bool.orb_false_iff in C. destruct C as [C _]. nia.
Qed.

Lemma pow2_split a b : 0 <= a -> 0 <= b -> 2 ^ (a + b) = 2 ^ a * 2 ^ b.
Proof. intros. now apply Z.pow_add_r. Qed.

(** [Float.exponent n d] is the binary exponent of [n / d]. *)
Lemma exponent_spec n d :
  0 < n -> 0 < d ->
  below d (Float.exponent n d) n /\ above d (Float.exponent n d + 1) n.
Proof.
  intros N D. unfold Float.exponent, below, above.
  pose proof (Z.log2_spec n N) as [A1 A2].
  pose proof (Z.log2_spec d D) as [B1 B2].
  pose proof (Z.log2_nonneg n) as A0. pose proof (Z.log2_nonneg d) as B0.
  set (a := Z.log2 n) in *. set (b := Z.log2 d) in *.
  unfold Z.succ in *.
  rewrite (pow2_split a 1) in A2 by lia. rewrite (pow2_split b 1) in B2 by lia.
  change (2 ^ 1) with 2 in *.
  destruct (0 <=? a - b) eqn:T.
  - assert (Ha : 2 ^ a = 2 ^ b * 2 ^ (a - b)).
    { rewrite <- pow2_split by lia. f_equal. lia. }
    assert (P : 0 < 2 ^ (a - b)) by (apply Z.pow_pos_nonneg; lia).
    destruct (d * 2 ^ (a - b) <=? n) eqn:C.
    + rewrite T. replace (0 <=? a - b + 1) with true by lia.
      rewrite (pow2_split (a - b) 1) by lia. change (2 ^ 1) with 2.
      split; [lia|]. nia.
    + replace (a - b - 1 + 1) with (a - b) by lia. rewrite T.
      split; [|lia].
      destruct (0 <=? a - b - 1) eqn:T'.
      * assert (2 ^ (a - b) = 2 ^ (a - b - 1) * 2).
        { replace (a - b) with (a - b - 1 + 1) at 1 by lia.
          now rewrite pow2_split by lia. }
        nia.
      * assert (a - b = 0) by lia.
        replace (- (a - b - 1)) with 1 by lia. change (2 ^ 1) with 2.
        replace (a - b) with 0 in Ha by lia. change (2 ^ 0) with 1 in Ha. lia.
  - assert (Hb : 2 ^ b = 2 ^ a * 2 ^ (- (a - b))).
    { rewrite <- pow2_split by lia. f_equal. lia. }
    assert (P : 0 < 2 ^ (- (a - b))) by (apply Z.pow_pos_nonneg; lia).
    destruct (d <=? n * 2 ^ (- (a - b))) eqn:C.
    + rewrite T. split; [lia|].
      destruct (0 <=? a - b + 1) eqn:T'.
      * assert (a - b + 1 = 0) as -> by lia. change (2 ^ 0) with 1.
        replace (- (a - b)) with 1 in Hb by lia. change (2 ^ 1) with 2 in Hb. lia.
      * assert (2 ^ (- (a - b)) = 2 ^ (- (a - b + 1)) * 2).
        { replace (- (a - b)) with (- (a - b + 1) + 1) at 1 by lia.
          now rewrite pow2_split by lia. }
        assert (0 < 2 ^ (- (a - b + 1))) by (apply Z.pow_pos_nonneg; lia).
        nia.
    + replace (a - b - 1 + 1) with (a - b) by lia. rewrite T.
      replace (0 <=? a - b - 1) with false by lia.
      split; [|lia].
      replace (- (a - b - 1)) with (- (a - b) + 1) by lia.
      rewrite pow2_split by lia. change (2 ^ 1) with 2. nia.
Qed.

(** A finite [Float.of_ratio n d] is within half a unit in the last place of
    [n / d], the last place being that of a binary64 number. *)
Lemma of_ratio_nearest n d m e :
  0 < n -> 0 < d -> Float.of_ratio n d = Float.Finite m e ->
  e = Z.max (Float.exponent n d - 52) (-1074)
  /\ if 0 <=? e then 2 * Z.abs (m * (d * 2 ^ e) - n) <= d * 2 ^ e
     else 2 * Z.abs (m * d - n * 2 ^ (- e)) <= d.
Proof.
  intros N D. unfold Float.of_ratio.
  replace (n <=? 0) with false by lia.
  set (e' := Z.max _ _). destruct (0 <=? e') eqn:E.
  - destruct (_ && _); [discriminate|]. intros [= <- <-].
    split; [reflexivity|]. rewrite E. apply round_half_even_nearest.
    assert (0 < 2 ^ e') by (apply Z.pow_pos_nonneg; lia). nia.
  - cbn [andb]. intros [= <- <-]. split; [reflexivity|]. rewrite E.
    now apply round_half_even_nearest.
Qed.

(** ** Stars *)





(** ** Stars of the ratings that the extractor delivers *)

Lemma decimal_in_range zeros c v :
  Py.decimal_in zeros c = Some v -> 0 <= v <= 9.
Proof.
  induction zeros as [|z zs IH]; simpl; [discriminate|].
  destruct ((z <=? c) && (c <? z + 10)) eqn:R; [|exact IH].
  intros [= <-]. lia.
Qed.

Lemma span_digits_all r :
  Forall (fun c => Py.isdecimal c = true) r ->
  exists ds, Float.span_digits r = (ds, [])
             /\ length ds = length r /\ Forall (fun v => 0 <= v <= 9) ds.
Proof.
  induction 1 as [|c r D _ (ds & E & L & F)]; simpl.
  - exists []. auto.
  - unfold Py.isdecimal in D.
    destruct (Py.decimal_value c) as [v|] eqn:V; [|discriminate].
    rewrite E. exists (v :: ds). simpl. repeat split; auto.
    constructor; [|exact F]. now apply decimal_in_range in V.
Qed.

Lemma fold_digits_nonneg ds : forall acc,
  0 <= acc -> Forall (fun v => 0 <= v <= 9) ds ->
  0 <= fold_left (fun a v => 10 * a + v) ds acc.
Proof.
  induction ds as [|v ds IH]; cbn [fold_left]; intros acc A F; [exact A|].
  inversion F as [|? ? Hv Hds]; subst. cbv beta in Hv.
  apply IH; [lia | assumption].
Qed.


Lemma round_half_even_1 x : Float.round_half_even x 1 = x.
Proof.
  unfold Float.round_half_even. now rewrite Z.mod_1_r, Z.div_1_r.
Qed.

Lemma exponent_integer n : 0 < n -> Float.exponent n 1 = Z.log2 n.
Proof.
  intros P. unfold Float.exponent. change (Z.log2 1) with 0.
  rewrite Z.sub_0_r, Z.mul_1_l.
  pose proof (Z.log2_nonneg n) as L. pose proof (Z.log2_spec n P) as [S _].
  replace (0 <=? Z.log2 n) with true by lia.
  now replace (2 ^ Z.log2 n <=? n) with true by lia.
Qed.

(** The float of an integer has no fractional part. *)
Lemma of_ratio_integer_no_half n m e :
  Float.of_ratio n 1 = Float.Finite m e ->
  Float.mod1_ge_half (Float.Finite m e) = false.
Proof.
  unfold Float.of_ratio. destruct (n <=? 0); [intros [= <- <-]; reflexivity|].
  set (e' := Z.max _ _). destruct (0 <=? e') eqn:E.
  - destruct (_ && _); [discriminate|]. intros [= <- <-].
    unfold Float.mod1_ge_half. now rewrite E.
  - rewrite round_half_even_1. cbn [andb]. intros [= <- <-].
    unfold Float.mod1_ge_half. rewrite E.
    assert (P : 0 < 2 ^ (- e')) by (apply Z.pow_pos_nonneg; lia).
    rewrite Z.mod_mul by lia. apply Z.leb_gt. lia.
Qed.

(** Integers below [2^53] are floats, and [int] gives them back. *)
Lemma of_ratio_small_integer n :
  0 <= n < 2 ^ 53 ->
  exists m e, Float.of_ratio n 1 = Float.Finite m e
              /\ Float.to_int (Float.Finite m e) = Ok n.
Proof.
  intros [N0 N1]. unfold Float.of_ratio. destruct (n <=? 0) eqn:Z0.
  - exists 0, 0. split; [reflexivity|]. simpl. f_equal. lia.
  - assert (P : 0 < n) by lia. rewrite exponent_integer by exact P.
    pose proof (Z.log2_nonneg n) as L0.
    assert (L1 : Z.log2 n < 53) by (apply Z.log2_lt_pow2; lia).
    replace (Z.max (Z.log2 n - 52) (-1074)) with (Z.log2 n - 52) by lia.
    destruct (0 <=? Z.log2 n - 52) eqn:E.
    + assert (Z.log2 n - 52 = 0) as -> by lia.
      change (1 * 2 ^ 0) with 1. rewrite round_half_even_1.
      assert (B : 2 ^ 53 < 2 ^ 1024) by (apply Z.pow_lt_mono_r; lia).
      replace (2 ^ 1024 <=? n * 2 ^ 0) with false by lia.
      exists n, 0. split; [reflexivity|]. simpl. f_equal. lia.
    + rewrite round_half_even_1. cbn [andb].
      eexists _, _. split; [reflexivity|].
      unfold Float.to_int. rewrite E. f_equal.
      apply Z.div_mul. assert (0 < 2 ^ (- (Z.log2 n - 52)))
        by (apply Z.pow_pos_nonneg; lia). lia.
Qed.

(** A rating that is a run of digits with a value below [2^53] is rendered
    as that many full-star glyphs, when the machine can build them. *)
Lemma stars_of_small_integer (cap : N) r ds :
  Forall (fun c => Py.isdecimal c = true) r ->
  Float.span_digits r = (ds, []) -> ds <> [] ->
  Float.number_of_digits ds < 2 ^ 53 ->
  stars_html cap r
  = if Float.number_of_digits ds <=? Z.of_N cap
    then Ok (star_glyphs (Float.number_of_digits ds) false)
    else Raise MemoryError.
Proof.
  intros D E NE B. destruct (span_digits_all r D) as (ds' & E' & L & F).
  assert (ds' = ds) as -> by congruence.
  assert (R : nonempty r = true).
  { destruct r; [|reflexivity]. destruct ds; [congruence | discriminate L]. }
  assert (O : Float.of_str r = Ok (Float.of_ratio (Float.number_of_digits ds) 1)).
  { unfold Float.of_str. rewrite E. destruct ds; [congruence | reflexivity]. }
  destruct (of_ratio_small_integer (Float.number_of_digits ds))
    as (m & e & Q & T).
  { split; [apply fold_digits_nonneg; [lia | exact F] | exact B]. }
  unfold stars_html. rewrite R, O, Q. cbn [bind]. rewrite T. cbn [bind].
  unfold full_stars.
  destruct (Float.number_of_digits ds <=? Z.of_N cap); [|reflexivity].
  cbn [bind]. rewrite (of_ratio_integer_no_half _ _ _ Q).
  unfold star_glyphs. now rewrite app_nil_r.
Qed.




(** ** The claim on the stars *)




(** * Further properties of the formatter *)

(** ** Normalization *)

Lemma replace_one_filter a s :
  Py.replace [a] [] s = filter (fun c => negb (a =? c)) s.
Proof.
  unfold Py.replace. induction s as [|c s IH]; [reflexivity|].
  cbn -[Z.eqb]. rewrite andb_true_r.
  destruct (a =? c); cbn -[Z.eqb]; now rewrite IH.
Qed.

Lemma sub_spaces_In y : forall s skip,
  In y (Re.sub_go (Re.items re_spaces) (u " ") skip s) -> y = 32 \/ In y s.
Proof.
  induction s as [|c s IH]; intros skip; [simpl; tauto|].
  rewrite sub_go_cons. destruct skip as [|k].
  - destruct (Re.match_here _ (c :: s)) as [[ws r]|].
    + change (u " ") with [32]. intros [<-|I]; [now left|].
      apply IH in I. simpl. tauto.
    + intros [<-|I]; [right; now left|]. apply IH in I. simpl. tauto.
  - intros I. apply IH in I. simpl. tauto.
Qed.

(** Every character of the normalized text is a blank or a character of the
    text. *)
Lemma clean_In y s : In y (_clean_response s) -> y = 32 \/ In y s.
Proof.
  unfold _clean_response, Py.replace. intros I.
  apply replace_go_removes in I. apply replace_go_removes in I.
  unfold Re.sub in I. simpl in I. apply sub_spaces_In in I.
  destruct I as [I|I]; [now left | right; now apply strip_In in I].
Qed.

(** X1.  The normalized text holds no asterisk, and no white-space
    character other than the blank: no line break, no tabulation. *)
Theorem clean_response_alphabet (s : str) :
  Forall (fun c => c <> 42 /\ (Py.isspace c = true -> c = 32))
         (_clean_response s).
Proof.
  apply Forall_forall. intros c I. split.
  - intros ->. unfold _clean_response in I.
    change (u "*") with [42] in I. rewrite replace_one_filter in I.
    apply filter_In in I. destruct I as [_ I]. discriminate.
  - intros W. unfold _clean_response, Py.replace in I.
    apply replace_go_removes in I. apply replace_go_removes in I.
    unfold Re.sub in I. simpl in I.
    pose proof (sub_spaces_chars (Py.strip s) 0) as F.
    rewrite Forall_forall in F. apply F in I.
    destruct I as [I|I]; [exact I | congruence].
Qed.

Section Kept.

(** A test that white space and asterisks fail. *)
Variable f : char -> bool.
Hypothesis f_space : forall c, Py.isspace c = true -> f c = false.
Hypothesis f_star : f 42 = false.

Lemma filter_lstrip s : filter f (Py.lstrip s) = filter f s.
Proof.
  induction s as [|c s IH]; [reflexivity|]. simpl.
  destruct (Py.isspace c) eqn:W; [|reflexivity].
  now rewrite (f_space c W).
Qed.

Lemma filter_strip s : filter f (Py.strip s) = filter f s.
Proof.
  unfold Py.strip, Py.rstrip.
  rewrite filter_rev, filter_lstrip, <- filter_rev, rev_involutive.
  apply filter_lstrip.
Qed.

Lemma firstn_app_exact (w r : str) : firstn (length w) (w ++ r) = w.
Proof.
  rewrite firstn_app, Nat.sub_diag, firstn_all. simpl. apply app_nil_r.
Qed.

Lemma filter_sub_spaces : forall s skip,
  Forall (fun c => Py.isspace c = true) (firstn skip s) ->
  filter f (Re.sub_go (Re.items re_spaces) (u " ") skip s) = filter f s.
Proof.
  induction s as [|c s IH]; intros skip F; [reflexivity|].
  rewrite sub_go_cons. destruct skip as [|k].
  - destruct (Re.match_here _ (c :: s)) as [[ws r]|] eqn:M.
    + apply match_here_inv in M. destruct M as [E P].
      apply pieces_cons in P. destruct P as (w & ws' & -> & W & N & P).
      apply pieces_nil in P. subst ws'. simpl in E, N, W.
      rewrite app_nil_r in E. destruct w as [|c' w]; [congruence|].
      inversion E; subst c' s. inversion W as [|? ? Wc Ww]; subst.
      change (u " ") with [32]. simpl concat. rewrite app_nil_r.
      cbn [length Nat.sub app filter]. rewrite Nat.sub_0_r.
      rewrite (f_space 32 eq_refl), (f_space c Wc).
      apply IH. now rewrite firstn_app_exact.
    + cbn [filter]. rewrite IH; [reflexivity | constructor].
  - simpl in F. inversion F as [|? ? Wc Fk]; subst.
    cbn [filter]. rewrite (f_space c Wc). now apply IH.
Qed.

Lemma filter_replace_go old :
  old <> [] -> Forall (fun c => f c = false) old ->
  forall s skip,
    Forall (fun c => f c = false) (firstn skip s) ->
    filter f (Py.replace_go old [] skip s) = filter f s.
Proof.
  intros N O. induction s as [|c s IH]; intros skip F; [reflexivity|].
  cbn [Py.replace_go]. destruct skip as [|k].
  - destruct (Py.startswith old (c :: s)) eqn:S.
    + apply startswith_prefix in S. destruct S as [suf E].
      destruct old as [|a old]; [congruence|].
      inversion E; subst a s. inversion O as [|? ? Oc Oo]; subst.
      cbn [length Nat.sub app filter]. rewrite Nat.sub_0_r, Oc.
      apply IH. now rewrite firstn_app_exact.
    + cbn [filter]. rewrite IH; [reflexivity | constructor].
  - simpl in F. inversion F as [|? ? Fc Fk]; subst.
    cbn [filter]. rewrite Fc. now apply IH.
Qed.

Lemma filter_clean s : filter f (_clean_response s) = filter f s.
Proof.
  unfold _clean_response, Py.replace.
  rewrite !filter_replace_go;
    try discriminate; try (repeat constructor; exact f_star).
  unfold Re.sub. simpl Re.anchored. cbv iota.
  rewrite filter_sub_spaces by constructor. apply filter_strip.
Qed.

End Kept.

(** X2.  Normalization keeps every character that is neither white space
    nor an asterisk, in the order of the text, and adds none. *)
Theorem clean_response_keeps_visible (s : str) :
  filter visible (_clean_response s) = filter visible s.
Proof.
  apply filter_clean.
  - intros c W. unfold visible. now rewrite W.
  - reflexivity.
Qed.

(** ** Blank texts and texts without a period *)

Lemma lstrip_blank s :
  Forall (fun c => Py.isspace c = true) s -> Py.lstrip s = [].
Proof.
  induction 1 as [|c s W _ IH]; [reflexivity|]. simpl. now rewrite W.
Qed.

Lemma strip_blank s :
  Forall (fun c => Py.isspace c = true) s -> Py.strip s = [].
Proof.
  intros F. unfold Py.strip, Py.rstrip. now rewrite (lstrip_blank s F).
Qed.

(** X3.  A text made of white space only, the empty text included, is
    rendered as the empty container: no paragraph, no list and no product
    block. *)
Theorem blank_text_gives_empty_container (cap : N) (s : str) :
  Forall (fun c => Py.isspace c = true) s ->
  format_response cap s = Ok (tpl "<div class=~general-response~></div>").
Proof.
  intros F. unfold format_response, format_response_body, _clean_response.
  rewrite (strip_blank s F). by_evaluation.
Qed.

(** The theorem at a text of blanks, a tabulation and a line break. *)
Lemma blank_text_gives_empty_container_witness :
  Forall (fun c => Py.isspace c = true) [32; 9; 10; 32]
  /\ format_response million [32; 9; 10; 32]
     = Ok (tpl "<div class=~general-response~></div>").
Proof.
  assert (F : Forall (fun c => Py.isspace c = true) [32; 9; 10; 32])
    by (repeat constructor).
  split; [exact F|].
  exact (blank_text_gives_empty_container million [32; 9; 10; 32] F).
Defined.

Lemma match_item_period s ws r :
  Re.match_here (Re.items re_item) s = Some (ws, r) -> In 46 s.
Proof.
  intros M. apply match_here_inv in M. destruct M as [-> P].
  apply pieces_cons in P. destruct P as (w1 & ws1 & -> & _ & _ & P).
  apply pieces_cons in P. destruct P as (w2 & ws2 & -> & D & [c ->] & P).
  inversion D as [|? ? Hc _]; subst. apply Z.eqb_eq in Hc. subst c.
  simpl. apply in_or_app. left. apply in_or_app. right. now left.
Qed.

Lemma findall_item_no_period : forall s skip,
  ~ In 46 s -> Re.findall_go (Re.items re_item) skip s = [].
Proof.
  induction s as [|c s IH]; intros skip N; [reflexivity|].
  cbn [Re.findall_go].
  assert (N' : ~ In 46 s) by (intros I; apply N; now right).
  destruct skip as [|k]; [|now apply IH].
  destruct (Re.match_here _ (c :: s)) as [[ws r]|] eqn:M; [|now apply IH].
  apply match_item_period in M. contradiction.
Qed.

(** X4.  A text without a period yields no product record, and is always
    rendered by the generic renderer on its normalized form, whatever the
    classifier says. *)
Theorem no_period_no_products (cap : N) (s : str) :
  ~ In 46 s ->
  _extract_products s = []
  /\ format_response cap s = Ok (_format_general_response (_clean_response s)).
Proof.
  intros N. split.
  - unfold _extract_products, Re.findall.
    now rewrite findall_item_no_period.
  - assert (N' : ~ In 46 (_clean_response s)).
    { intros I. apply clean_In in I. destruct I as [I|I]; [discriminate|].
      contradiction. }
    unfold format_response, format_response_body,
      _format_product_recommendation, _extract_products, Re.findall.
    rewrite (findall_item_no_period _ 0 N').
    now destruct (_is_product_recommendation _).
Qed.

(** The theorem at a recommendation written without a period. *)
Lemma no_period_no_products_witness :
  ~ In 46 (u "Best phones: Pixel - $300, Galaxy - $500")
  /\ _extract_products (u "Best phones: Pixel - $300, Galaxy - $500") = []
  /\ format_response million (u "Best phones: Pixel - $300, Galaxy - $500")
     = Ok (_format_general_response
             (_clean_response (u "Best phones: Pixel - $300, Galaxy - $500"))).
Proof.
  assert (N : ~ In 46 (u "Best phones: Pixel - $300, Galaxy - $500")).
  { vm_compute. intros H. repeat (destruct H as [H|H]; [discriminate H|]).
    exact H. }
  split; [exact N|].
  exact (no_period_no_products million _ N).
Defined.

(** ** Trimming *)

Lemma lstrip_head x : head_in Py.isspace (Py.lstrip x) = false.
Proof.
  induction x as [|c x IH]; [reflexivity|]. simpl.
  destruct (Py.isspace c) eqn:W; [exact IH | exact W].
Qed.

Lemma lstrip_app_visible c : Py.isspace c = false ->
  forall l, exists l', Py.lstrip (l ++ [c]) = l' ++ [c].
Proof.
  intros W. induction l as [|a l [l' IH]]; simpl.
  - rewrite W. now exists [].
  - destruct (Py.isspace a); [now exists l' | now exists (a :: l)].
Qed.

(** The result of [strip] neither begins nor ends with white space. *)
Lemma strip_no_outer_space x : no_outer_space (Py.strip x).
Proof.
  unfold no_outer_space, Py.strip, Py.rstrip. split.
  - pose proof (lstrip_head x) as H.
    destruct (Py.lstrip x) as [|c y]; [reflexivity|]. simpl in H.
    simpl rev. destruct (lstrip_app_visible c H (rev y)) as [l' ->].
    rewrite rev_app_distr. exact H.
  - rewrite rev_involutive. apply lstrip_head.
Qed.

Lemma lstrip_keeps c x :
  In c x -> Py.isspace c = false -> In c (Py.lstrip x).
Proof.
  intros I W. induction x as [|a x IH]; [contradiction|]. simpl.
  destruct (Py.isspace a) eqn:A; [|exact I].
  destruct I as [->|I]; [congruence | now apply IH].
Qed.

Lemma strip_keeps c x :
  In c x -> Py.isspace c = false -> In c (Py.strip x).
Proof.
  intros I W. unfold Py.strip, Py.rstrip.
  apply in_rev. rewrite rev_involutive.
  apply lstrip_keeps; [|exact W]. apply in_rev. rewrite rev_involutive.
  now apply lstrip_keeps.
Qed.

(** A stripped text is not empty exactly when the text holds a character
    other than white space. *)
Lemma strip_nonempty x :
  Py.strip x <> [] <-> exists c, In c x /\ Py.isspace c = false.
Proof.
  split.
  - intros N. destruct (strip_no_outer_space x) as [H _].
    destruct (Py.strip x) as [|c y] eqn:E; [congruence|].
    exists c. split; [|exact H]. apply strip_In. rewrite E. now left.
  - intros (c & I & W) E. apply (strip_keeps c x I) in W.
    rewrite E in W. contradiction.
Qed.

(** ** The fields of an extracted record *)

Lemma split_go_incl sep c : forall s skip,
  In c (fst (Py.split_go sep skip s)) -> In c s.
Proof.
  induction s as [|a s IH]; intros skip; [simpl; tauto|].
  cbn [Py.split_go]. destruct skip as [|k].
  - destruct (Py.startswith sep (a :: s)).
    + destruct (Py.split_go sep _ s); simpl. tauto.
    + specialize (IH 0%nat). destruct (Py.split_go sep 0 s); simpl in *.
      intros [<-|I]; [now left | right; now apply IH].
  - intros I. right. now apply (IH k).
Qed.

(** The first piece of a split is made of characters of the text. *)
Lemma split_first_incl sep s c : In c (hd [] (Py.split sep s)) -> In c s.
Proof.
  unfold Py.split. pose proof (split_go_incl sep c s 0) as H.
  destruct (Py.split_go sep 0 s). exact H.
Qed.

Lemma search_incl its x pre ws r c :
  Re.search (Re.Pattern false its) x = Some (pre, ws, r) ->
  In c (concat ws) -> In c x.
Proof.
  unfold Re.search; simpl. intros S I.
  apply search_items_inv in S. destruct S as [-> _].
  apply in_or_app. right. apply in_or_app. now left.
Qed.

Lemma concat_firstn_incl (n : nat) (ws : list str) c :
  In c (concat (firstn n ws)) -> In c (concat ws).
Proof.
  rewrite <- (firstn_skipn n ws) at 2. rewrite concat_app.
  intros I. apply in_or_app. now left.
Qed.

(** What [extract_item] puts in a record. *)
Lemma extract_item_fields content p :
  extract_item content = Some p ->
  name p = Py.strip (hd [] (Py.split (u " - ") content))
  /\ name p <> []
  /\ price p = group0 (Re.search re_price content)
  /\ rating p = group_first 3 (Re.search re_rating content)
  /\ description p = Py.strip content.
Proof.
  unfold extract_item.
  destruct (Py.strip (hd [] (Py.split (u " - ") content))) as [|c n] eqn:E;
    [discriminate|].
  intros [= <-]. simpl. repeat split; auto. discriminate.
Qed.

(** X5.  Every record that the extractor delivers has a name and a
    description that are not empty and that neither begin nor end with
    white space, and none of its four fields holds a period or a line
    break. *)
Theorem extracted_record_fields (s : str) (p : product) :
  In p (_extract_products s) ->
  name p <> [] /\ description p <> []
  /\ no_outer_space (name p) /\ no_outer_space (description p)
  /\ Forall (fun c => c <> 46 /\ c <> 10)
            (name p ++ price p ++ rating p ++ description p).
Proof.
  intros I. apply extract_loop_In in I. destruct I as (ws & I & E).
  apply item_content_class in I. set (content := nth 3 ws []) in *.
  apply extract_item_fields in E. destruct E as (En & Nn & Ep & Er & Ed).
  assert (C : forall c, In c content -> c <> 46 /\ c <> 10).
  { intros c Ic. rewrite Forall_forall in I. apply I in Ic.
    unfold Re.not_dot_nl in Ic. apply negb_true_iff, orb_false_iff in Ic.
    destruct Ic as [A B]. apply Z.eqb_neq in A, B. auto. }
  split; [exact Nn|]. split.
  - rewrite Ed. apply strip_nonempty.
    rewrite En in Nn. apply strip_nonempty in Nn.
    destruct Nn as (c & Ic & W). exists c. split; [|exact W].
    now apply split_first_incl in Ic.
  - split; [rewrite En; apply strip_no_outer_space|].
    split; [rewrite Ed; apply strip_no_outer_space|].
    apply Forall_forall. intros c Ic. apply C.
    rewrite !in_app_iff in Ic. destruct Ic as [Ic|[Ic|[Ic|Ic]]].
    + rewrite En in Ic. apply strip_In in Ic.
      now apply split_first_incl in Ic.
    + rewrite Ep in Ic. unfold group0 in Ic.
      destruct (Re.search re_price content) as [[[pre ws'] r]|] eqn:S;
        [|contradiction].
      eapply search_incl; eauto.
    + rewrite Er in Ic. unfold group_first in Ic.
      destruct (Re.search re_rating content) as [[[pre ws'] r]|] eqn:S;
        [|contradiction].
      eapply search_incl; [exact S|]. eapply concat_firstn_incl; eauto.
    + rewrite Ed in Ic. now apply strip_In in Ic.
Qed.

(** The theorem at the first record of the two numbered items. *)
Lemma extracted_record_fields_witness :
  In (Product (u "Phone A") (u "₹20,000") [] (u "Phone A - ₹20,000 4"))
     (_extract_products two_items)
  /\ Forall (fun c => c <> 46 /\ c <> 10)
            (u "Phone A" ++ u "₹20,000" ++ [] ++ u "Phone A - ₹20,000 4").
Proof.
  assert (I : In (Product (u "Phone A") (u "₹20,000") []
                          (u "Phone A - ₹20,000 4"))
                 (_extract_products two_items))
    by (vm_compute; now left).
  split; [exact I|].
  exact (proj2 (proj2 (proj2 (proj2 (extracted_record_fields _ _ I))))).
Defined.

(** X6.  The price of an extracted record is empty or is a currency sign,
    rupee or dollar, followed by white space or none and then by at least
    one digit or comma, and nothing else. *)
Theorem extracted_price_shape (s : str) (p : product) :
  In p (_extract_products s) ->
  price p = []
  \/ exists c ws ds,
       price p = c :: ws ++ ds /\ (c = 8377 \/ c = 36)
       /\ Forall (fun w => Py.isspace w = true) ws
       /\ ds <> []
       /\ Forall (fun d => Py.isdecimal d = true \/ d = 44) ds.
Proof.
  intros I. apply extract_loop_In in I. destruct I as (ws & _ & E).
  apply extract_item_fields in E. destruct E as (_ & _ & -> & _).
  unfold group0, Re.search; simpl.
  destruct (Re.search_items _ _) as [[[pre ws'] r]|] eqn:S; [|now left].
  right. apply search_items_inv in S. destruct S as [_ P].
  apply pieces_cons in P. destruct P as (w1 & ws1 & -> & C & [c ->] & P).
  apply pieces_cons in P. destruct P as (w2 & ws2 & -> & W & _ & P).
  apply pieces_cons in P. destruct P as (w3 & ws3 & -> & D & N & P).
  apply pieces_nil in P. subst ws3. simpl in *.
  exists c, w2, w3. rewrite app_nil_r. repeat split; auto.
  - inversion C as [|? ? Hc _]; subst. unfold Re.currency in Hc.
    apply orb_true_iff in Hc. rewrite !Z.eqb_eq in Hc. exact Hc.
  - eapply Forall_impl; [|exact D]. intros d Hd. unfold Re.digit_comma in Hd.
    apply orb_true_iff in Hd. rewrite Z.eqb_eq in Hd. exact Hd.
Qed.

(** The theorem at the first record of the two numbered items. *)
Lemma extracted_price_shape_witness :
  In (Product (u "Phone A") (u "₹20,000") [] (u "Phone A - ₹20,000 4"))
     (_extract_products two_items)
  /\ (u "₹20,000" = []
      \/ exists c ws ds,
           u "₹20,000" = c :: ws ++ ds /\ (c = 8377 \/ c = 36)
           /\ Forall (fun w => Py.isspace w = true) ws
           /\ ds <> []
           /\ Forall (fun d => Py.isdecimal d = true \/ d = 44) ds).
Proof.
  assert (I : In (Product (u "Phone A") (u "₹20,000") []
                          (u "Phone A - ₹20,000 4"))
                 (_extract_products two_items))
    by (vm_compute; now left).
  split; [exact I|].
  exact (extracted_price_shape _ _ I).
Defined.

(** ** Ratings of extracted records *)

Lemma span_digits_value r ds :
  Float.span_digits r = (ds, []) ->
  digits_value r = Float.number_of_digits ds.
Proof. unfold digits_value. now intros ->. Qed.



(** X8.  A rating that is a run of decimal digits, of any script, with a
    value below [2^53]: when the machine can build that many glyphs, it is
    rendered as exactly that many full-star glyphs and no half star;
    otherwise the rendering raises [MemoryError]. *)
Theorem digit_rating_stars (cap : N) (r : str) :
  r <> [] ->
  Forall (fun c => Py.isdecimal c = true) r ->
  digits_value r < 2 ^ 53 ->
  (digits_value r <= Z.of_N cap ->
   stars_html cap r = Ok (star_glyphs (digits_value r) false))
  /\ (Z.of_N cap < digits_value r -> stars_html cap r = Raise MemoryError).
Proof.
  intros NE D B. destruct (span_digits_all r D) as (ds & E & L & _).
  rewrite (span_digits_value r ds E) in *.
  assert (S : stars_html cap r
              = if Float.number_of_digits ds <=? Z.of_N cap
                then Ok (star_glyphs (Float.number_of_digits ds) false)
                else Raise MemoryError).
  { apply (stars_of_small_integer cap r ds D E); [|exact B].
    intros ->. destruct r; [congruence | discriminate L]. }
  rewrite S. split; intros C.
  - now replace (Float.number_of_digits ds <=? Z.of_N cap) with true by lia.
  - now replace (Float.number_of_digits ds <=? Z.of_N cap) with false by lia.
Qed.

(** The theorem at the rating [12], on a machine that can build a million
    glyphs. *)
Lemma digit_rating_stars_witness :
  u "12" <> []
  /\ Forall (fun c => Py.isdecimal c = true) (u "12")
  /\ digits_value (u "12") < 2 ^ 53
  /\ digits_value (u "12") <= Z.of_N million
  /\ stars_html million (u "12") = Ok (star_glyphs 12 false).
Proof.
  assert (NE : u "12" <> []) by discriminate.
  assert (D : Forall (fun c => Py.isdecimal c = true) (u "12"))
    by (repeat constructor).
  assert (B : digits_value (u "12") < 2 ^ 53) by reflexivity.
  assert (C : digits_value (u "12") <= Z.of_N million)
    by (vm_compute; discriminate).
  split; [exact NE|]. split; [exact D|]. split; [exact B|]. split; [exact C|].
  exact (proj1 (digit_rating_stars million (u "12") NE D B) C).
Defined.

(** ** The introduction *)

Lemma endswith_period x : Py.endswith (u ".") (x ++ u ".") = true.
Proof.
  unfold Py.endswith. rewrite rev_app_distr. change (u ".") with [46].
  reflexivity.
Qed.

(** X9.  The introduction of the product block is never empty: it is the
    default sentence, or a text that ends with a period and neither begins
    nor ends with white space. *)
Theorem intro_shape (s : str) :
  _get_recommendation_intro s <> []
  /\ (_get_recommendation_intro s = default_intro
      \/ (Py.endswith (u ".") (_get_recommendation_intro s) = true
          /\ no_outer_space (_get_recommendation_intro s))).
Proof.
  unfold _get_recommendation_intro.
  set (i := Py.strip (Py.join (u ". ") (intro_loop (Py.split (u ".") s)))).
  pose proof (strip_no_outer_space
                (Py.join (u ". ") (intro_loop (Py.split (u ".") s)))) as T.
  fold i in T. destruct i as [|c i'] eqn:E.
  - cbn [nonempty andb]. split; [discriminate | now left].
  - cbn [nonempty andb]. destruct (Py.endswith (u ".") (c :: i')) eqn:W.
    + cbn [negb]. split; [discriminate|]. right. auto.
    + cbn [negb nonempty app]. split; [discriminate|]. right.
      split; [apply (endswith_period (c :: i'))|].
      destruct T as [T1 T2]. split; [exact T1|].
      change (c :: i' ++ u ".") with ((c :: i') ++ [46]).
      rewrite rev_app_distr. reflexivity.
Qed.

(** ** List entries *)

Lemma greedy_last cls : forall s w ws r,
  Re.greedy cls (Re.match_here []) s = Some (w, (ws, r)) ->
  head_in cls r = false.
Proof.
  induction s as [|c s IH]; intros w ws r; cbn [Re.greedy].
  - cbn [Re.match_here option_map]. intros H. inversion H; subst. reflexivity.
  - destruct (cls c) eqn:C.
    + destruct (Re.greedy cls (Re.match_here []) s) as [[w' [ws' r']]|] eqn:G.
      * intros H. inversion H; subst. apply (IH _ _ _ eq_refl).
      * apply greedy_none in G. destruct G as [s' G]. discriminate.
    + cbn [Re.match_here option_map]. intros H. inversion H; subst. exact C.
Qed.

(** After a match of items that end in [cls*], the text does not go on with
    a character of [cls]. *)
Lemma match_here_last_star cls p : forall s ws r,
  Re.match_here (p ++ [(cls, Re.Star)]) s = Some (ws, r) ->
  head_in cls r = false.
Proof.
  induction p as [|[cls' q] p IH]; intros s ws r.
  - cbn [app Re.match_here]. unfold Re.push2.
    destruct (Re.greedy cls _ s) as [[w [ws' r']]|] eqn:G; [|discriminate].
    intros [= <- <-]. exact (greedy_last cls s w ws' r' G).
  - change (((cls', q) :: p) ++ [(cls, Re.Star)])
      with ((cls', q) :: (p ++ [(cls, Re.Star)])).
    set (p' := p ++ [(cls, Re.Star)]) in *.
    assert (K : forall s0 w0, Re.push w0 (Re.match_here p' s0) = Some (ws, r) ->
                head_in cls r = false).
    { intros s0 w0. destruct (Re.match_here p' s0) as [[ws' r']|] eqn:M;
        simpl; [|discriminate].
      intros [= <- <-]. eapply IH; eauto. }
    cbn [Re.match_here]. destruct q.
    + destruct s as [|c s]; [discriminate|].
      destruct (cls' c); [apply K | discriminate].
    + destruct s as [|c s]; [apply K|].
      destruct (cls' c); [|apply K].
      destruct (Re.match_here p' s) as [[ws' r']|] eqn:M; [|apply K].
      intros [= <- <-]. eapply IH; eauto.
    + unfold Re.push2.
      destruct (Re.greedy cls' (Re.match_here p') s) as [[w [ws' r']]|] eqn:G;
        [|discriminate].
      intros [= <- <-]. apply greedy_inv in G.
      destruct G as (_ & s' & _ & M). eapply IH; eauto.
    + destruct s as [|c s]; [discriminate|].
      destruct (cls' c); [|discriminate].
      destruct (Re.greedy cls' (Re.match_here p') s) as [[w [ws' r']]|] eqn:G;
        [|discriminate].
      intros [= <- <-]. apply greedy_inv in G.
      destruct G as (_ & s' & _ & M). eapply IH; eauto.
Qed.

Lemma head_in_app Q (l m : str) : l <> [] -> head_in Q (l ++ m) = head_in Q l.
Proof. destruct l; [congruence | reflexivity]. Qed.

Lemma no_outer_space_suffix w r :
  no_outer_space (w ++ r) -> head_in Py.isspace r = false ->
  no_outer_space r.
Proof.
  intros [_ L] H. split; [exact H|].
  destruct r as [|a r]; [reflexivity|].
  rewrite rev_app_distr, head_in_app in L; [exact L|].
  simpl. intros E. apply app_eq_nil in E. destruct E. discriminate.
Qed.

(** Removing a marker that ends in [\s*] from the start of a trimmed line
    leaves a trimmed line. *)
Lemma sub_marker_trimmed p x :
  no_outer_space x ->
  no_outer_space (Re.sub (Re.Pattern true (p ++ [(Re.space, Re.Star)])) [] x).
Proof.
  intros T. unfold Re.sub. cbn [Re.anchored Re.items].
  destruct (Re.match_here _ x) as [[ws r]|] eqn:M; [|exact T].
  pose proof (match_here_last_star _ _ _ _ _ M) as H.
  apply match_here_inv in M. destruct M as [E _]. rewrite E in T.
  cbn [app]. eapply no_outer_space_suffix; eauto.
Qed.

Lemma list_entries_trimmed lines :
  Forall (fun e => e <> [] /\ no_outer_space e) (list_entries lines)
  /\ (length (list_entries lines) <= length lines)%nat.
Proof.
  induction lines as [|l rest [IH1 IH2]]; [split; [constructor | auto]|].
  cbn [list_entries length].
  destruct (nonempty (Py.strip l)); [|split; [exact IH1 | lia]].
  set (e := Re.sub re_numbered_marker [] _).
  assert (T : no_outer_space e).
  { apply (sub_marker_trimmed [(Re.digit, Re.Plus); (Re.lit 46, Re.One)]).
    apply (sub_marker_trimmed [(Re.bullet_mark, Re.One)]).
    apply strip_no_outer_space. }
  destruct e as [|c e']; cbn [nonempty]; [split; [exact IH1 | lia]|].
  split; [|simpl; lia].
  constructor; [|exact IH1]. split; [discriminate | exact T].
Qed.

(** X10.  A list block holds at most one item per line of its text, and
    every item is a text that is not empty and that neither begins nor ends
    with white space, between the fixed opening and closing of the list. *)
Theorem format_list_entries (text : str) :
  exists entries,
    _format_list text
    = tpl "<ul class=~response-list~>" ++ concat (map list_item entries)
      ++ tpl "</ul>"
    /\ Forall (fun e => e <> [] /\ no_outer_space e) entries
    /\ (length entries <= length (Py.split nl text))%nat.
Proof.
  exists (list_entries (Py.split nl text)).
  split; [apply format_list_block|]. apply list_entries_trimmed.
Qed.

(** ** Paragraphs *)

Lemma blocks_of_cons x rest :
  blocks_of (x :: rest) = blocks_of [x] ++ blocks_of rest.
Proof.
  cbn [blocks_of]. destruct (nonempty (Py.strip x)); reflexivity.
Qed.

Lemma startswith_blank_line c (a b : str) :
  Py.startswith (nl ++ nl) (c :: a ++ nl ++ nl ++ b)
  = Py.startswith (nl ++ nl) (c :: a ++ nl).
Proof. destruct a; reflexivity. Qed.

(** A text that holds no blank line and does not end with a line break,
    followed by a blank line and a second text, is cut at that blank
    line first. *)
Lemma split_go_blank_line b : forall a,
  Py.contains (nl ++ nl) (a ++ nl) = false ->
  Py.split_go (nl ++ nl) 0 (a ++ nl ++ nl ++ b)
  = (a, Py.split (nl ++ nl) b).
Proof.
  induction a as [|c a IH]; intros C.
  - unfold Py.split. change ([] ++ nl ++ nl ++ b) with (10 :: 10 :: b).
    change (nl ++ nl) with [10; 10]. cbn -[Z.eqb].
    now destruct (Py.split_go [10; 10] 0 b).
  - change ((c :: a) ++ nl) with (c :: (a ++ nl)) in C.
    rewrite contains_cons in C. apply orb_false_iff in C.
    destruct C as [C1 C2].
    change ((c :: a) ++ nl ++ nl ++ b) with (c :: (a ++ nl ++ nl ++ b)).
    cbn [Py.split_go]. rewrite startswith_blank_line, C1, (IH C2).
    reflexivity.
Qed.

Lemma contains_app_l w (a b : str) :
  Py.contains w (a ++ b) = false -> Py.contains w a = false.
Proof.
  intros C. destruct (Py.contains w a) eqn:A; [|reflexivity].
  apply contains_occurs in A. destruct A as (pre & suf & ->).
  assert (O : occurs w ((pre ++ w ++ suf) ++ b)).
  { exists pre, (suf ++ b). now rewrite <- !app_assoc. }
  apply contains_occurs in O. congruence.
Qed.

Lemma split_go_no_blank_line : forall a,
  Py.contains (nl ++ nl) a = false ->
  Py.split_go (nl ++ nl) 0 a = (a, []).
Proof.
  induction a as [|c a IH]; intros C; [reflexivity|].
  rewrite contains_cons in C. apply orb_false_iff in C. destruct C as [C1 C2].
  cbn [Py.split_go]. now rewrite C1, (IH C2).
Qed.

(** X11.  Paragraphs are rendered one after the other, each on its own: the
    markup of a text with no blank line and no final line break, a blank
    line and a second text is the container around the blocks of the first
    followed by the blocks of the second. *)
Theorem general_paragraphs_compose (a b : str) :
  Py.contains (nl ++ nl) (a ++ nl) = false ->
  _format_general_response (a ++ nl ++ nl ++ b)
  = tpl "<div class=~general-response~>"
    ++ concat (map render_block (general_blocks a))
    ++ concat (map render_block (general_blocks b))
    ++ tpl "</div>".
Proof.
  intros C. rewrite general_response_blocks.
  assert (E : general_blocks (a ++ nl ++ nl ++ b)
              = general_blocks a ++ general_blocks b).
  { unfold general_blocks. unfold Py.split at 1 2.
    rewrite (split_go_blank_line b a C).
    rewrite (split_go_no_blank_line a (contains_app_l _ _ _ C)).
    apply blocks_of_cons. }
  rewrite E, map_app, concat_app, <- app_assoc. reflexivity.
Qed.

(** The theorem at a list of two lines followed by a paragraph. *)
Lemma general_paragraphs_compose_witness :
  Py.contains (nl ++ nl) ((u "- one" ++ nl ++ u "- two") ++ nl) = false
  /\ _format_general_response
       ((u "- one" ++ nl ++ u "- two") ++ nl ++ nl ++ u "Thanks")
     = tpl "<div class=~general-response~>"
       ++ concat (map render_block (general_blocks (u "- one" ++ nl ++ u "- two")))
       ++ concat (map render_block (general_blocks (u "Thanks")))
       ++ tpl "</div>".
Proof.
  assert (C : Py.contains (nl ++ nl) ((u "- one" ++ nl ++ u "- two") ++ nl)
              = false) by reflexivity.
  split; [exact C|].
  exact (general_paragraphs_compose _ (u "Thanks") C).
Defined.

(** ** Product cards *)






(** ** When the fallback is used *)






(** ** Plain prose *)

(** X15.  A text whose normalized form is refused by the classifier, holds
    more than white space and starts with no list marker is rendered as a
    single paragraph: the normalized text without outer white space, in the
    paragraph element, inside the container. *)
Theorem plain_prose_single_paragraph (cap : N) (s : str) :
  _is_product_recommendation (_clean_response s) = false ->
  Py.strip (_clean_response s) <> [] ->
  is_list_paragraph (Py.strip (_clean_response s)) = false ->
  format_response cap s
  = Ok (tpl "<div class=~general-response~>"
        ++ paragraph_html (Py.strip (_clean_response s)) ++ tpl "</div>").
Proof.
  intros C N L. unfold format_response, format_response_body. rewrite C.
  cbn [try_except]. f_equal. rewrite general_response_blocks.
  unfold general_blocks. change (nl ++ nl) with (10 :: nl).
  rewrite split_single_line by apply clean_no_newline.
  cbn [blocks_of]. destruct (Py.strip (_clean_response s)) as [|c x] eqn:E;
    [congruence|].
  cbn [nonempty]. unfold block_of. rewrite L.
  cbn [map concat render_block]. now rewrite app_nil_r.
Qed.

(** The theorem at a sentence spread over two lines. *)
Lemma plain_prose_single_paragraph_witness :
  _is_product_recommendation
    (_clean_response (u "  The weather" ++ nl ++ u "is *fine* today ")) = false
  /\ format_response million (u "  The weather" ++ nl ++ u "is *fine* today ")
     = Ok (tpl "<div class=~general-response~>"
           ++ paragraph_html (u "The weather is fine today") ++ tpl "</div>").
Proof.
  split; [reflexivity|].
  apply (plain_prose_single_paragraph million
           (u "  The weather" ++ nl ++ u "is *fine* today "));
    [reflexivity | discriminate | reflexivity].
Defined.
